(** * DefaultHeaderProcessor (src/blockheaderprocessor.cpp)

    A shallow embedding of the header processor: header-batch acceptance,
    the unconnecting-header handler, the bounded walk that finds missing
    ancestors, the work gate and the download suggestion loop, followed by
    the properties the specification states about them. *)

From Stdlib Require Import ZArith String List Lia.
From stdpp Require Import base functions list gmap strings.

Local Open Scope Z_scope.

(** ** Data model *)

(** [uint256] block hashes and [arith_uint256] chain work are unbounded
    comparisons only; [NodeId] is the peer id. *)
Abbreviation uint256 := Z (only parsing).
Abbreviation NodeId := Z (only parsing).

(** A [CBlockIndex*]: a non-null pointer is a handle into the block store;
    [option BlockPtr] is a pointer that may be [nullptr]. *)
Abbreviation BlockPtr := nat (only parsing).

Record CBlockHeader := {
  hashPrevBlock : uint256;
  nNonce : Z;
  (** [GetHash()]: the digest of the serialized header, carried with it. *)
  GetHash : uint256
}.

Record CBlockIndex := {
  phashBlock : uint256;
  pprev : option BlockPtr;
  nHeight : Z;
  nChainWork : Z;
  nStatus : Z
}.

Definition GetBlockHash (b : CBlockIndex) : uint256 := phashBlock b.

(** Modelled from the spec: the status bits of chain.h, which is not part of
    this file (has-full-data and the validity levels, with the values chain.h
    gives them). *)
Definition BLOCK_VALID_TREE : Z := 2.
Definition BLOCK_VALID_MASK : Z := 7.
Definition BLOCK_HAVE_DATA : Z := 8.
Definition BLOCK_FAILED_MASK : Z := 96.

(** Modelled from the spec: [CBlockIndex::IsValid] of chain.h, the
    "validity flag is set" test: no failure bit and a validity level of at
    least [nUpTo]. *)
Definition IsValid (b : CBlockIndex) (nUpTo : Z) : bool :=
  if negb (Z.land (nStatus b) BLOCK_FAILED_MASK =? 0) then false
  else nUpTo <=? Z.land (nStatus b) BLOCK_VALID_MASK.

(** The globals of main.h the processor reaches into: [mapBlockIndex],
    the records it points to, [chainActive] and [pindexBestHeader]. *)
Record ChainState := {
  mapBlockIndex : gmap Z nat;
  blk : BlockPtr -> CBlockIndex;
  chainActive : list BlockPtr;
  pindexBestHeader : option BlockPtr
}.

(** Modelled from the spec: [CChain::Contains] and [CChain::Tip] of chain.h
    (the node belongs to the active best chain; its last entry). *)
Definition Contains (c : list BlockPtr) (p : BlockPtr) : bool :=
  bool_decide (p ∈ c).

Definition Tip (c : list BlockPtr) : option BlockPtr := last c.

(** Modelled from the spec: [CChain::GetLocator] of chain.h. The locator is
    an opaque summary handle obtained for a node; the model keeps the node it
    was obtained for. *)
Inductive CBlockLocator := LocatorFor (p : option BlockPtr).

Definition GetLocator (c : list BlockPtr) (p : option BlockPtr) : CBlockLocator :=
  LocatorFor p.

(** Modelled from the spec: [InFlightIndex] of inflightindex.h, the block
    hashes currently requested, each with the peer it was requested from. *)
Definition isInFlight (idx : list (Z * Z)) (h : uint256) : bool :=
  existsb (fun e => snd e =? h) idx.

(** Modelled from the spec: the per-peer record behind [NodeStatePtr]
    (nodestate.h): the unconnecting-headers counter and the best known
    header of the peer. *)
Record CNodeState := {
  unconnectingHeaders : Z;
  bestKnownHeader : option Z
}.

(** Modelled from the spec: [CValidationState] of consensus/validation.h as
    the caller observes it through [IsInvalid(nDoS)]: whether the state is
    marked invalid, and the penalty it carries. *)
Record CValidationState := {
  invalid : bool;
  nDoS : Z
}.

Definition IsInvalid (s : CValidationState) : option Z :=
  if invalid s then Some (nDoS s) else None.

(** ** Collaborators

    The functions the processor receives or calls that live outside this
    file. *)
Class Collaborators := {
  (** state of the thin-block manager and connection manager consulted by
      [BlockAnnounceReceiver] *)
  ThinState : Type;
  (** main.h constant *)
  MAX_BLOCKS_IN_TRANSIT_PER_PEER : nat;
  (** main.cpp: [AcceptBlockHeader(header, state, &pindexLast)] returns the
      flag, the validation state and the new value of [pindexLast]. *)
  AcceptBlockHeader :
    CBlockHeader -> option BlockPtr -> ChainState ->
    (bool * CValidationState * option BlockPtr) * ChainState;
  (** the block tree is append-only: an entry of [mapBlockIndex] is never
      removed or redirected *)
  AcceptBlockHeader_keeps :
    forall h p cs r cs' x q,
      AcceptBlockHeader h p cs = (r, cs') ->
      mapBlockIndex cs !! x = Some q -> mapBlockIndex cs' !! x = Some q;
  (** the admission decision of [BlockAnnounceReceiver] for one hash
      announced by one peer *)
  decideAnnounced :
    uint256 -> NodeId -> list (Z * Z) -> ThinState -> bool * ThinState
}.

(** ** The missing-ancestor walk *)

Definition WALK_LIMIT : Z := 144.

Section FindMissingBlocks.
Context `{env : Collaborators}.
Variable cs : ChainState.
Variable blocksInFlight : list (Z * Z).

(** The body of the [do ... while ((walk = walk->pprev))] loop. [continue]
    jumps to the loop condition, so the three ways through the body differ
    only in what [toFetch] is when [pprev] is read. The counter bounds the
    number of iterations by [WALK_LIMIT + 1]; [fuel] makes that
    structural. *)
Fixpoint findMissingBlocks_loop (fuel : nat) (walked : Z) (walk : BlockPtr)
    (toFetch : list BlockPtr) : option (list BlockPtr) :=
  match fuel with
  | O => None
  | S fuel =>
    let walked := walked + 1 in
    if walked >? WALK_LIMIT then Some []
    else if Contains (chainActive cs) walk then Some toFetch
    else
      let toFetch :=
        if negb (Z.land (nStatus (blk cs walk)) BLOCK_HAVE_DATA =? 0) then toFetch
        else if isInFlight blocksInFlight (GetBlockHash (blk cs walk)) then toFetch
        else
          let toFetch := toFetch ++ [walk] in
          if (MAX_BLOCKS_IN_TRANSIT_PER_PEER <? length toFetch)%nat
          then tail toFetch else toFetch in
      match pprev (blk cs walk) with
      | None => Some toFetch
      | Some p => findMissingBlocks_loop fuel walked p toFetch
      end
  end.

Definition findMissingBlocks (last : BlockPtr) : option (list BlockPtr) :=
  findMissingBlocks_loop (S (Z.to_nat WALK_LIMIT)) 0 last [].

(** A block the walk wants: no block data yet and not in flight. *)
Definition wanted (p : BlockPtr) : bool :=
  (Z.land (nStatus (blk cs p)) BLOCK_HAVE_DATA =? 0)
  && negb (isInFlight blocksInFlight (GetBlockHash (blk cs p))).

(** [toFetch.push_back(walk)] followed by the trim. *)
Definition push_trim (toFetch : list BlockPtr) (walk : BlockPtr) : list BlockPtr :=
  let toFetch := toFetch ++ [walk] in
  if (MAX_BLOCKS_IN_TRANSIT_PER_PEER <? length toFetch)%nat
  then tail toFetch else toFetch.

(** [gap_to walk gap a]: following [pprev] from [walk] visits the nodes of
    [gap] in that order (so [walk] first) and then arrives at [a]. *)
Inductive gap_to : BlockPtr -> list BlockPtr -> BlockPtr -> Prop :=
| gap_here a : gap_to a [] a
| gap_step p q gap a :
    pprev (blk cs p) = Some q -> gap_to q gap a -> gap_to p (p :: gap) a.

(** [n] steps along [pprev]. *)
Fixpoint nth_ancestor (n : nat) (p : BlockPtr) : option BlockPtr :=
  match n with
  | O => Some p
  | S n =>
    match pprev (blk cs p) with
    | Some q => nth_ancestor n q
    | None => None
    end
  end.

(** [a] is reached from [p] by at least one [pprev] step. *)
Definition StrictAncestor (a p : BlockPtr) : Prop :=
  exists n, nth_ancestor (S n) p = Some a.

(** Every entry is a strict ancestor of the entries before it: the list
    runs from the walked tip towards the known chain. *)
Definition TipFirst (l : list BlockPtr) : Prop :=
  forall i j x y, (i < j)%nat -> l !! i = Some x -> l !! j = Some y ->
    StrictAncestor y x.

(** Every entry is a strict ancestor of the entries after it: the list
    runs from the known chain towards the walked tip. *)
Definition ChainFirst (l : list BlockPtr) : Prop :=
  forall i j x y, (i < j)%nat -> l !! i = Some x -> l !! j = Some y ->
    StrictAncestor x y.

(** The last [n] entries of a list. *)
Definition lastn {A} (n : nat) (l : list A) : list A :=
  drop (length l - n) l.

(** One pass through the loop body changes [toFetch] by [push_trim] on a
    wanted block and not at all otherwise. *)
Definition visit (toFetch : list BlockPtr) (walk : BlockPtr) : list BlockPtr :=
  if wanted walk then push_trim toFetch walk else toFetch.

(** What the loop keeps true of [toFetch]: it runs tip first, and the
    block being visited is a strict ancestor of each of its entries. *)
Definition walk_inv (walk : BlockPtr) (toFetch : list BlockPtr) : Prop :=
  TipFirst toFetch /\ forall x, x ∈ toFetch -> StrictAncestor walk x.

End FindMissingBlocks.

(** ** Effects

    The processor mutates the chain state, the per-peer state and the
    in-flight index, calls out to its collaborators, and leaves
    [acceptHeaders] by an exception. A computation takes the world, and gives
    back how it ended, the world it left, and the calls it made in order. *)

Inductive BlockHeaderError := BlockHeaderError_what (what : string).

Inductive Fault := NullDereference | OutOfFuel.

Inductive Outcome (A : Type) :=
| Returned (a : A)
| Thrown (e : BlockHeaderError)
| Stuck (f : Fault).
Arguments Returned {A} a.
Arguments Thrown {A} e.
Arguments Stuck {A} f.

Inductive InvType := MSG_BLOCK.
Inductive CInv := CInv_of (type : InvType) (hash : uint256).

Inductive NetMsg :=
| GETHEADERS (locator : CBlockLocator) (hashStop : uint256)
| GETDATA (vInv : list CInv).

(** The calls that leave the processor, and, as markers, the two member
    calls of the direct-fetch stage. *)
Inductive Event :=
| EvMisbehaving (id : NodeId) (howmuch : Z) (reason : string)
| EvUpdateBlockAvailability (id : NodeId) (hash : uint256)
| EvPushMessage (to : NodeId) (msg : NetMsg)
| EvOnBlockAnnounced (hash : uint256) (from : NodeId)
| EvMarkAsInFlight (id : NodeId) (hash : uint256)
| EvCheckBlockIndex
| EvFindMissingBlocks (last : BlockPtr)
| EvSuggestDownload (toFetch : list BlockPtr) (last : BlockPtr).

Definition is_misbehaving (e : Event) : bool :=
  match e with EvMisbehaving _ _ _ => true | _ => false end.

Definition is_checkBlockIndex (e : Event) : bool :=
  match e with EvCheckBlockIndex => true | _ => false end.

Definition is_fetch_stage (e : Event) : bool :=
  match e with
  | EvFindMissingBlocks _ | EvSuggestDownload _ _
  | EvOnBlockAnnounced _ _ | EvMarkAsInFlight _ _
  | EvPushMessage _ (GETDATA _) => true
  | _ => false
  end.

(** The hashes handed to the admission decision, and the hashes marked in
    flight, in call order. *)
Definition announced (evs : list Event) : list Z :=
  omap (fun e => match e with EvOnBlockAnnounced h _ => Some h | _ => None end) evs.

Definition marked (evs : list Event) : list (Z * Z) :=
  omap (fun e => match e with EvMarkAsInFlight id h => Some (id, h) | _ => None end) evs.

Definition getdata_sent (evs : list Event) : list (Z * list CInv) :=
  omap (fun e => match e with EvPushMessage to (GETDATA v) => Some (to, v) | _ => None end) evs.

(** The calls of the suggestion loop when the first [k] hashes of [hs] are
    admitted: each is handed to the admission decision and then marked in
    flight; the next hash, if there is one, is handed to the decision and
    declined; nothing after it is touched. *)
Definition suggest_events (pfrom : NodeId) (k : nat) (hs : list Z) : list Event :=
  flat_map (fun h => [EvOnBlockAnnounced h pfrom; EvMarkAsInFlight pfrom h]) (take k hs)
  ++ match hs !! k with
     | Some h => [EvOnBlockAnnounced h pfrom]
     | None => []
     end.

(** The messages pushed, each with the peer it goes to, in order. *)
Definition pushed (evs : list Event) : list (Z * NetMsg) :=
  omap (fun e => match e with EvPushMessage to m => Some (to, m) | _ => None end) evs.

(** [int] arithmetic: the value a 32-bit [int] holds after a result [z],
    with two's complement wrap-around. *)
Definition INT_MAX : Z := 2147483647.
Definition INT_MIN : Z := -2147483648.
Definition wrap_int (z : Z) : Z := (z + 2147483648) mod 4294967296 - 2147483648.

Section Effects.
Context `{env : Collaborators}.

Record World := {
  chain : ChainState;
  (** [NodeStatePtr(id)] *)
  nodeState : Z -> CNodeState;
  (** [blocksInFlight] *)
  inFlight : list (Z * Z);
  (** [thinmg] and [connman] as the admission decision sees them *)
  thin : ThinState
}.

Definition M (A : Type) : Type := World -> Outcome A * World * list Event.

#[export] Instance M_ret : MRet M := fun A a w => (Returned a, w, []).

#[export] Instance M_bind : MBind M := fun A B k m w =>
  match m w with
  | (Returned a, w1, ev1) =>
    match k a w1 with (r, w2, ev2) => (r, w2, ev1 ++ ev2) end
  | (Thrown e, w1, ev1) => (Thrown e, w1, ev1)
  | (Stuck f, w1, ev1) => (Stuck f, w1, ev1)
  end.

Definition throw {A} (e : BlockHeaderError) : M A := fun w => (Thrown e, w, []).

Definition emit (e : Event) : M unit := fun w => (Returned tt, w, [e]).

Definition with_chain (cs : ChainState) (w : World) : World :=
  {| chain := cs; nodeState := nodeState w; inFlight := inFlight w; thin := thin w |}.

Definition with_nodeState (ns : Z -> CNodeState) (w : World) : World :=
  {| chain := chain w; nodeState := ns; inFlight := inFlight w; thin := thin w |}.

Definition with_inFlight (l : list (Z * Z)) (w : World) : World :=
  {| chain := chain w; nodeState := nodeState w; inFlight := l; thin := thin w |}.

Definition with_thin (t : ThinState) (w : World) : World :=
  {| chain := chain w; nodeState := nodeState w; inFlight := inFlight w; thin := t |}.

(** main.h: the penalty is booked outside; the processor only reports. *)
Definition Misbehaving (id : NodeId) (howmuch : Z) (reason : string) : M unit :=
  emit (EvMisbehaving id howmuch reason).

(** Modelled from the spec: [UpdateBlockAvailability] of main.h updates the
    known-block pointer of the peer to the hash. *)
Definition UpdateBlockAvailability (id : NodeId) (hash : uint256) : M unit :=
  fun w =>
    let st := {| unconnectingHeaders := unconnectingHeaders (nodeState w id);
                 bestKnownHeader := Some hash |} in
    (Returned tt, with_nodeState (<[id := st]> (nodeState w)) w,
     [EvUpdateBlockAvailability id hash]).

(** [connman.PushMessage]: sends are fire-and-forget. *)
Definition PushMessage (to : NodeId) (msg : NetMsg) : M unit :=
  emit (EvPushMessage to msg).

(** Modelled from the spec: [BlockInFlightMarker] marks the hash in flight
    for the peer. *)
Definition markAsInFlight (id : NodeId) (hash : uint256) : M unit :=
  fun w =>
    (Returned tt, with_inFlight (inFlight w ++ [(id, hash)]) w,
     [EvMarkAsInFlight id hash]).

(** The injected [std::function<void()> checkBlockIndex]. *)
Definition checkBlockIndex : M unit := emit EvCheckBlockIndex.

(** Modelled from the spec: [BlockAnnounceReceiver::onBlockAnnounced] of
    blockannounce.h asks the admission decision; if admitted, it appends
    the block to the outgoing inventory batch. *)
Definition onBlockAnnounced (hash : uint256) (from : NodeId) (toGet : list CInv)
    : M (bool * list CInv) :=
  fun w =>
    match decideAnnounced hash from (inFlight w) (thin w) with
    | (ok, t) =>
      (Returned (ok, if ok then toGet ++ [CInv_of MSG_BLOCK hash] else toGet),
       with_thin t w, [EvOnBlockAnnounced hash from])
    end.

(** [NodeStatePtr(id)->unconnectingHeaders = v] *)
Definition set_unconnectingHeaders (id : NodeId) (v : Z) : M unit :=
  fun w =>
    let st := {| unconnectingHeaders := v;
                 bestKnownHeader := bestKnownHeader (nodeState w id) |} in
    (Returned tt, with_nodeState (<[id := st]> (nodeState w)) w, []).

(** [++NodeStatePtr(id)->unconnectingHeaders], giving the new value *)
Definition incr_unconnectingHeaders (id : NodeId) : M Z :=
  fun w =>
    let v := wrap_int (unconnectingHeaders (nodeState w id) + 1) in
    let st := {| unconnectingHeaders := v;
                 bestKnownHeader := bestKnownHeader (nodeState w id) |} in
    (Returned v, with_nodeState (<[id := st]> (nodeState w)) w, []).

(** The record in the block tree of the best header a peer is known to
    have, [nullptr] when the peer has none or the tree does not know it. *)
Definition peerBestKnownHeader (w : World) (id : NodeId) : option BlockPtr :=
  match bestKnownHeader (nodeState w id) with
  | Some hash => mapBlockIndex (chain w) !! hash
  | None => None
  end.

(** A computation that never throws and never calls [checkBlockIndex]. *)
Definition quiet {A} (m : M A) : Prop :=
  forall w, match m w with
            | (r, _, evs) =>
              (forall e, r <> Thrown e) /\ List.filter is_checkBlockIndex evs = []
            end.

(** A computation that never throws and, when it returns, has called
    [checkBlockIndex] once, as the last thing it did. *)
Definition ends_checked {A} (m : M A) : Prop :=
  forall w, match m w with
            | (Returned _, _, evs) =>
              exists evs', evs = evs' ++ [EvCheckBlockIndex] /\
                           List.filter is_checkBlockIndex evs' = []
            | (Thrown _, _, _) => False
            | (Stuck _, _, evs) => List.filter is_checkBlockIndex evs = []
            end.

End Effects.

(** ** The processor *)

(** Maximum number of unconnecting headers announcements before DoS score *)
Definition MAX_UNCONNECTING_HEADERS : Z := 10.

(** Check if header connects with active chain *)
Definition headerConnects (cs : ChainState) (h : CBlockHeader) : bool :=
  bool_decide (is_Some (mapBlockIndex cs !! hashPrevBlock h)).

Section DefaultHeaderProcessor.
Context `{env : Collaborators}.
(** the peer of the processor: [pfrom->id], [pfrom->GetId()] *)
Variable pfrom : NodeId.

(** The [for] loop of [acceptHeaders], from the current [pindexLast]. *)
Fixpoint acceptHeaders_loop (headers : list CBlockHeader)
    (pindexLast : option BlockPtr) : M (option BlockPtr) :=
  match headers with
  | [] => mret pindexLast
  | header :: headers =>
    fun w =>
      let discontinuous :=
        match pindexLast with
        | Some p =>
          negb (hashPrevBlock header =? GetBlockHash (blk (chain w) p))
        | None => false
        end in
      if discontinuous then
        (Misbehaving pfrom 20 "non-continuous header sequence";;
         throw (BlockHeaderError_what "non-continuous headers sequence")) w
      else
        match AcceptBlockHeader header pindexLast (chain w) with
        | (ok, state, pindexLast, cs) =>
          let w := with_chain cs w in
          if negb ok then
            match IsInvalid state with
            | Some nDoS =>
              ((if 0 <? nDoS
                then Misbehaving pfrom nDoS "invalid header"
                else mret tt);;
               throw (BlockHeaderError_what "invalid header received")) w
            | None => acceptHeaders_loop headers pindexLast w
            end
          else acceptHeaders_loop headers pindexLast w
        end
  end.

Definition acceptHeaders (headers : list CBlockHeader) : M (option BlockPtr) :=
  acceptHeaders_loop headers None.

(** [findMissingBlocks], reading the chain state and the in-flight index of
    the world. *)
Definition findMissingBlocksM (last : BlockPtr) : M (list BlockPtr) :=
  fun w =>
    match findMissingBlocks (chain w) (inFlight w) last with
    | Some toFetch => (Returned toFetch, w, [EvFindMissingBlocks last])
    | None => (Stuck OutOfFuel, w, [EvFindMissingBlocks last])
    end.

Definition hasEqualOrMoreWork (last : BlockPtr) : M bool :=
  fun w =>
    if negb (IsValid (blk (chain w) last) BLOCK_VALID_TREE) then (Returned false, w, [])
    else
      match Tip (chainActive (chain w)) with
      | Some tip =>
        (Returned (nChainWork (blk (chain w) tip) <=? nChainWork (blk (chain w) last)),
         w, [])
      | None => (Stuck NullDereference, w, [])
      end.

(** The [for] loop of [suggestDownload] over the blocks in the order it
    visits them. *)
Fixpoint suggestDownload_loop (bs : list BlockPtr) (toGet : list CInv)
    : M (list CInv) :=
  match bs with
  | [] => mret toGet
  | b :: bs =>
    fun w =>
      (r ← onBlockAnnounced (GetBlockHash (blk (chain w) b)) pfrom toGet;
       if negb (fst r) then mret (snd r)
       else
         markAsInFlight pfrom (GetBlockHash (blk (chain w) b));;
         suggestDownload_loop bs (snd r)) w
  end.

Definition suggestDownload (toFetch : list BlockPtr) (last : BlockPtr) : M unit :=
  emit (EvSuggestDownload toFetch last);;
  toGet ← suggestDownload_loop (rev toFetch) [];
  match toGet with
  | [] => mret tt
  | _ => PushMessage pfrom (GETDATA toGet)
  end.

(** What the admission decision says about the hashes [hs], asked in that
    order with the in-flight index [idx] and its own state [t]: it admits
    the first [k], each one asked with the earlier ones marked in flight for
    the peer and in the state its earlier answers left, and declines the
    next, if there is one; [t'] is the state its last answer left. *)
Inductive admits_exactly :
    list Z -> list (Z * Z) -> ThinState -> nat -> ThinState -> Prop :=
| admits_none idx t : admits_exactly [] idx t 0 t
| admits_declined h hs idx t t' :
    decideAnnounced h pfrom idx t = (false, t') ->
    admits_exactly (h :: hs) idx t 0 t'
| admits_next h hs idx t t1 k t' :
    decideAnnounced h pfrom idx t = (true, t1) ->
    admits_exactly hs (idx ++ [(pfrom, h)]) t1 k t' ->
    admits_exactly (h :: hs) idx t (S k) t'.

(** [operator()(headers, peerSentMax, maybeAnnouncement)] *)
Definition operator_call (headers : list CBlockHeader)
    (peerSentMax maybeAnnouncement : bool) : M (option BlockPtr) :=
  pindexLast ← acceptHeaders headers;
  set_unconnectingHeaders pfrom 0;;
  match pindexLast with
  | Some p => fun w => UpdateBlockAvailability pfrom (GetBlockHash (blk (chain w) p)) w
  | None => mret tt
  end;;
  match pindexLast with
  | Some p =>
    if peerSentMax
    then fun w =>
      PushMessage pfrom
        (GETHEADERS (GetLocator (chainActive (chain w)) (Some p)) 0) w
    else mret tt
  | None => mret tt
  end;;
  match pindexLast with
  | Some p =>
    if maybeAnnouncement then
      ok ← hasEqualOrMoreWork p;
      if (ok : bool) then
        toFetch ← findMissingBlocksM p;
        suggestDownload toFetch p
      else mret tt
    else mret tt
  | None => mret tt
  end;;
  checkBlockIndex;;
  mret pindexLast.

(** What [operator()] does once [acceptHeaders] has returned. *)
Definition after_accept (peerSentMax maybeAnnouncement : bool)
    (pindexLast : option BlockPtr) : M (option BlockPtr) :=
  set_unconnectingHeaders pfrom 0;;
  match pindexLast with
  | Some p => fun w => UpdateBlockAvailability pfrom (GetBlockHash (blk (chain w) p)) w
  | None => mret tt
  end;;
  match pindexLast with
  | Some p =>
    if peerSentMax
    then fun w =>
      PushMessage pfrom
        (GETHEADERS (GetLocator (chainActive (chain w)) (Some p)) 0) w
    else mret tt
  | None => mret tt
  end;;
  match pindexLast with
  | Some p =>
    if maybeAnnouncement then
      ok ← hasEqualOrMoreWork p;
      if (ok : bool) then
        toFetch ← findMissingBlocksM p;
        suggestDownload toFetch p
      else mret tt
    else mret tt
  | None => mret tt
  end;;
  checkBlockIndex;;
  mret pindexLast.

End DefaultHeaderProcessor.

Section RequestConnectHeaders.
Context `{env : Collaborators}.

(** [requestConnectHeaders(h, connman, from, bumpUnconnecting)] *)
Definition requestConnectHeaders (h : CBlockHeader) (from : NodeId)
    (bumpUnconnecting : bool) : M bool :=
  fun w =>
    if headerConnects (chain w) h then (Returned false, w, [])
    else
      (UpdateBlockAvailability from (GetHash h);;
       (fun w =>
          PushMessage from
            (GETHEADERS
               (GetLocator (chainActive (chain w)) (pindexBestHeader (chain w))) 0) w);;
       if negb bumpUnconnecting then mret true
       else
         unconnecting ← incr_unconnectingHeaders from;
         (if Z.rem unconnecting MAX_UNCONNECTING_HEADERS =? 0
          then Misbehaving from 20 "unconnecting-headers"
          else mret tt);;
         mret true) w.

(** The handler called for each of a run of headers from one peer. *)
Fixpoint requestConnectHeaders_each (hs : list CBlockHeader) (from : NodeId)
    (bumpUnconnecting : bool) : M unit :=
  match hs with
  | [] => mret tt
  | h :: hs =>
    requestConnectHeaders h from bumpUnconnecting;;
    requestConnectHeaders_each hs from bumpUnconnecting
  end.

End RequestConnectHeaders.

(** ** A reference chain index

    A small stand-in for the collaborators, used to run the processor on
    concrete inputs. *)
Module Ref.

Definition valid_state : CValidationState := {| invalid := false; nDoS := 0 |}.
Definition DoS (level : Z) : CValidationState := {| invalid := true; nDoS := level |}.

(** Modelled from the spec: [AcceptBlockHeader] of main.cpp, which is not
    part of this file. A header already in the tree is handed back
    (rejected without penalty when its record is marked failed); a header
    that fails its own checks is rejected with penalty 50; a header whose
    previous block is unknown with penalty 10, on a failed previous block
    with penalty 100; any other header gets a new record on top of its
    previous block. *)
Definition AcceptBlockHeader (header : CBlockHeader) (pindexLast : option BlockPtr)
    (cs : ChainState) : (bool * CValidationState * option BlockPtr) * ChainState :=
  match mapBlockIndex cs !! GetHash header with
  | Some p =>
    if negb (Z.land (nStatus (blk cs p)) BLOCK_FAILED_MASK =? 0)
    then (false, DoS 0, Some p, cs)
    else (true, valid_state, Some p, cs)
  | None =>
    if nNonce header =? 0 then (false, DoS 50, pindexLast, cs)
    else
      match mapBlockIndex cs !! hashPrevBlock header with
      | None => (false, DoS 10, pindexLast, cs)
      | Some prev =>
        if negb (Z.land (nStatus (blk cs prev)) BLOCK_FAILED_MASK =? 0)
        then (false, DoS 100, pindexLast, cs)
        else
          let p := size (mapBlockIndex cs) in
          let b := {| phashBlock := GetHash header;
                      pprev := Some prev;
                      nHeight := nHeight (blk cs prev) + 1;
                      nChainWork := nChainWork (blk cs prev) + 1;
                      nStatus := BLOCK_VALID_TREE |} in
          (true, valid_state, Some p,
           {| mapBlockIndex := <[GetHash header := p]> (mapBlockIndex cs);
              blk := <[p := b]> (blk cs);
              chainActive := chainActive cs;
              pindexBestHeader := pindexBestHeader cs |})
      end
  end.

(** Modelled from the spec: the admission decision, capacity-aware: a hash
    already in flight is declined, and so is any hash once the free
    capacity is used up. *)
Definition decideAnnounced (hash : uint256) (from : NodeId) (idx : list (Z * Z))
    (free : nat) : bool * nat :=
  if isInFlight idx hash then (false, free)
  else
    match free with
    | O => (false, O)
    | S free => (true, free)
    end.

(** A straight line of blocks: block [p] has hash [1000 + p] and sits on
    top of block [p - 1]; block 0 is the genesis block. *)
Definition line_blk (p : BlockPtr) : CBlockIndex :=
  {| phashBlock := 1000 + Z.of_nat p;
     pprev := match p with O => None | S q => Some q end;
     nHeight := Z.of_nat p;
     nChainWork := Z.of_nat p;
     nStatus := BLOCK_VALID_TREE |}.

(** The first [n] blocks of the line are known, the first [active] of them
    form the active chain. *)
Definition line (n active : nat) : ChainState :=
  {| mapBlockIndex := list_to_map (map (fun p => (1000 + Z.of_nat p, p)) (seq 0 n));
     blk := line_blk;
     chainActive := seq 0 active;
     pindexBestHeader := Some (Nat.pred n) |}.

Definition peer0 : CNodeState :=
  {| unconnectingHeaders := 0; bestKnownHeader := None |}.

End Ref.

(** The reference chain index is a collaborator. *)
Lemma Ref_AcceptBlockHeader_keeps h p cs r cs' x q :
  Ref.AcceptBlockHeader h p cs = (r, cs') ->
  mapBlockIndex cs !! x = Some q -> mapBlockIndex cs' !! x = Some q.
Proof.
  unfold Ref.AcceptBlockHeader. intros Hacc Hx.
  destruct (mapBlockIndex cs !! GetHash h) as [p0|] eqn:Hh.
  - destruct (negb _); inversion Hacc; subst; exact Hx.
  - destruct (nNonce h =? 0); [inversion Hacc; subst; exact Hx|].
    destruct (mapBlockIndex cs !! hashPrevBlock h) as [prev|];
      [|inversion Hacc; subst; exact Hx].
    destruct (negb _); inversion Hacc; subst; [exact Hx|]. simpl.
    rewrite lookup_insert_ne; [exact Hx|]. intros Heq. rewrite <- Heq in Hx. congruence.
Qed.

#[export] Instance Ref_env : Collaborators := {|
  ThinState := nat;
  MAX_BLOCKS_IN_TRANSIT_PER_PEER := 16;
  AcceptBlockHeader := Ref.AcceptBlockHeader;
  AcceptBlockHeader_keeps := Ref_AcceptBlockHeader_keeps;
  decideAnnounced := Ref.decideAnnounced
|}.

(** A world over the reference chain index: every peer is fresh, nothing is
    in flight, and the admission decision has [free] slots left. *)
Definition Ref_world (cs : ChainState) (free : nat) : World :=
{| chain := cs; nodeState := fun _ => Ref.peer0; inFlight := []; thin := free |}.

(** A header with hash [1000 + n] on top of the block with hash [prev]. *)
Definition Ref_header (prev : uint256) (n : Z) : CBlockHeader :=
{| hashPrevBlock := prev; nNonce := 1; GetHash := 1000 + n |}.


(** A world over the reference chain index in which every peer is known to
    have the header with hash [known]. *)
Definition Ref_world_knowing (cs : ChainState) (known : uint256) : World :=
{| chain := cs;
   nodeState := fun _ => {| unconnectingHeaders := 0; bestKnownHeader := Some known |};
   inFlight := []; thin := 0%nat |}.

(** * Properties *)

(** ** The missing-ancestor walk *)

Section FindMissingBlocksFacts.
Context `{env : Collaborators}.
Variable cs : ChainState.
Variable blocksInFlight : list (Z * Z).

Local Abbreviation loop := (findMissingBlocks_loop cs blocksInFlight).
Local Abbreviation cap := MAX_BLOCKS_IN_TRANSIT_PER_PEER.
Local Abbreviation visit := (visit cs blocksInFlight).
Local Abbreviation walk_inv := (walk_inv cs).

Lemma loop_unfold fuel walked walk toFetch :
  loop (S fuel) walked walk toFetch =
  if walked + 1 >? WALK_LIMIT then Some []
  else if Contains (chainActive cs) walk then Some toFetch
  else match pprev (blk cs walk) with
       | None => Some (visit toFetch walk)
       | Some p => loop fuel (walked + 1) p (visit toFetch walk)
       end.
Proof.
  simpl. unfold visit, wanted, push_trim.
  destruct (walked + 1 >? WALK_LIMIT); [reflexivity|].
  destruct (Contains (chainActive cs) walk); [reflexivity|].
  destruct (Z.land (nStatus (blk cs walk)) BLOCK_HAVE_DATA =? 0); simpl;
    [|reflexivity].
  destruct (isInFlight blocksInFlight (GetBlockHash (blk cs walk))); reflexivity.
Qed.

(** The walk counter bounds the loop: [WALK_LIMIT + 1] iterations of fuel
    always suffice. *)
Lemma loop_total fuel walked walk toFetch :
  walked <= WALK_LIMIT -> WALK_LIMIT - walked < Z.of_nat fuel ->
  is_Some (loop fuel walked walk toFetch).
Proof.
  revert walked walk toFetch.
  induction fuel as [|fuel IH]; intros walked walk toFetch Hle Hfuel; [lia|].
  rewrite loop_unfold.
  destruct (Z.gtb_spec (walked + 1) WALK_LIMIT) as [Hgt|Hngt]; [eauto|].
  destruct (Contains (chainActive cs) walk); [eauto|].
  destruct (pprev (blk cs walk)) as [p|]; [|eauto].
  apply IH; lia.
Qed.

Lemma findMissingBlocks_total last :
  is_Some (findMissingBlocks cs blocksInFlight last).
Proof. apply loop_total; unfold WALK_LIMIT; simpl; lia. Qed.

(** *** The window after a walk that reaches the active chain *)

Lemma loop_reaches fuel walked walk gap a toFetch :
  gap_to cs walk gap a ->
  Contains (chainActive cs) a = true ->
  Forall (fun g => Contains (chainActive cs) g = false) gap ->
  walked + Z.of_nat (length gap) + 1 <= WALK_LIMIT ->
  (length gap < fuel)%nat ->
  loop fuel walked walk toFetch = Some (fold_left visit gap toFetch).
Proof.
  intros Hgap Ha. revert fuel walked toFetch.
  induction Hgap as [a|p q gap a Hp Hgap IH];
    intros fuel walked toFetch Hout Hlim Hfuel.
  - destruct fuel as [|fuel]; [simpl in Hfuel; lia|].
    rewrite loop_unfold.
    destruct (Z.gtb_spec (walked + 1) WALK_LIMIT); [simpl in Hlim; lia|].
    rewrite Ha. reflexivity.
  - destruct fuel as [|fuel]; [simpl in Hfuel; lia|].
    rewrite loop_unfold. simpl length in *.
    destruct (Z.gtb_spec (walked + 1) WALK_LIMIT); [lia|].
    inversion Hout as [|? ? Hpout Hrest]; subst.
    rewrite Hpout, Hp. simpl.
    apply IH; [assumption|assumption|lia|lia].
Qed.

(** *** The walk that does not reach the active chain in time *)

Lemma loop_too_far fuel walked walk gap a toFetch :
  gap_to cs walk gap a ->
  Forall (fun g => Contains (chainActive cs) g = false) gap ->
  walked <= WALK_LIMIT ->
  WALK_LIMIT <= walked + Z.of_nat (length gap) ->
  WALK_LIMIT - walked < Z.of_nat fuel ->
  loop fuel walked walk toFetch = Some [].
Proof.
  intros Hgap. revert fuel walked toFetch.
  induction Hgap as [a|p q gap a Hp Hgap IH];
    intros fuel walked toFetch Hout Hle Hfar Hfuel;
    (destruct fuel as [|fuel]; [lia|]); rewrite loop_unfold;
    destruct (Z.gtb_spec (walked + 1) WALK_LIMIT) as [Hgt|Hngt];
    try reflexivity.
  - simpl in Hfar. lia.
  - inversion Hout as [|? ? Hpout Hrest]; subst.
    rewrite Hpout, Hp. simpl length in Hfar.
    apply IH; [assumption|lia|lia|lia].
Qed.

(** With [WALK_LIMIT] or more blocks between the tip and the active chain the
    walk gives up and the window is empty. *)
Lemma findMissingBlocks_too_far tip gap a :
  gap_to cs tip gap a ->
  Forall (fun g => Contains (chainActive cs) g = false) gap ->
  (Z.to_nat WALK_LIMIT <= length gap)%nat ->
  findMissingBlocks cs blocksInFlight tip = Some [].
Proof.
  intros Hgap Hout Hlen. unfold findMissingBlocks.
  apply (loop_too_far _ 0 tip gap a []); try assumption;
    unfold WALK_LIMIT in *; lia.
Qed.

Lemma tail_drop {A} (l : list A) : tail l = drop 1 l.
Proof. destruct l; reflexivity. Qed.

Lemma push_trim_lastn xs x :
  push_trim (lastn cap xs) x = lastn cap (xs ++ [x]).
Proof.
  unfold push_trim, lastn.
  rewrite !length_app, length_drop. simpl length.
  destruct (Nat.ltb_spec cap (length xs - (length xs - cap) + 1)) as [Hlt|Hge].
  - rewrite tail_drop, <- drop_app_le by lia.
    rewrite drop_drop. f_equal. lia.
  - replace (length xs - cap)%nat with 0%nat by lia.
    replace (length xs + 1 - cap)%nat with 0%nat by lia.
    reflexivity.
Qed.

Lemma fold_visit_lastn gap xs :
  fold_left visit gap (lastn cap xs) =
  lastn cap (xs ++ List.filter (wanted cs blocksInFlight) gap).
Proof.
  revert xs. induction gap as [|g gap IH]; intros xs; simpl.
  - rewrite app_nil_r. reflexivity.
  - unfold visit at 2. destruct (wanted cs blocksInFlight g).
    + rewrite push_trim_lastn, IH, <- app_assoc. reflexivity.
    + apply IH.
Qed.

(** *** The order of the window *)

Lemma nth_ancestor_step n x p q :
  nth_ancestor cs n x = Some p -> pprev (blk cs p) = Some q ->
  nth_ancestor cs (S n) x = Some q.
Proof.
  revert x. induction n as [|n IH]; intros x Hn Hq.
  - simpl in Hn. inversion Hn; subst. simpl. rewrite Hq. reflexivity.
  - simpl in Hn. simpl. destruct (pprev (blk cs x)) as [y|]; [|discriminate].
    apply (IH y Hn Hq).
Qed.

Lemma TipFirst_nil : TipFirst cs [].
Proof. intros i j x y _ Hx. simpl in Hx. discriminate. Qed.

Lemma TipFirst_tail l : TipFirst cs l -> TipFirst cs (tail l).
Proof.
  intros H i j x y Hij Hx Hy. destruct l as [|z l]; [simpl in Hx; discriminate|].
  simpl in Hx, Hy. apply (H (S i) (S j) x y); [lia|exact Hx|exact Hy].
Qed.

Lemma elem_of_tail (l : list BlockPtr) x : x ∈ tail l -> x ∈ l.
Proof. destruct l; simpl; [tauto|]. intros; right; assumption. Qed.

Lemma walk_inv_visit walk toFetch :
  walk_inv walk toFetch ->
  TipFirst cs (visit toFetch walk) /\
  forall x, x ∈ visit toFetch walk -> x = walk \/ StrictAncestor cs walk x.
Proof.
  intros [Hord Hanc]. unfold visit.
  destruct (wanted cs blocksInFlight walk); [|split; [exact Hord|auto]].
  assert (Hpush : TipFirst cs (toFetch ++ [walk])).
  { intros i j x y Hij Hx Hy.
    apply lookup_snoc_Some in Hy as [[Hj Hy]|[Hj <-]].
    - apply lookup_snoc_Some in Hx as [[_ Hx]|[Hi _]]; [|lia].
      apply (Hord i j x y Hij Hx Hy).
    - apply lookup_snoc_Some in Hx as [[_ Hx]|[Hi _]]; [|lia].
      apply Hanc. apply list_elem_of_lookup. eauto. }
  assert (Hin : forall x, x ∈ toFetch ++ [walk] -> x = walk \/ StrictAncestor cs walk x).
  { intros x Hx. apply elem_of_app in Hx as [Hx|Hx]; [right; auto|].
    apply list_elem_of_singleton in Hx. left; exact Hx. }
  unfold push_trim. destruct (cap <? length (toFetch ++ [walk]))%nat.
  - split; [apply TipFirst_tail, Hpush|].
    intros x Hx. apply Hin, elem_of_tail, Hx.
  - split; assumption.
Qed.

Lemma loop_TipFirst fuel walked walk toFetch l :
  walk_inv walk toFetch ->
  loop fuel walked walk toFetch = Some l -> TipFirst cs l.
Proof.
  revert walked walk toFetch.
  induction fuel as [|fuel IH]; intros walked walk toFetch Hinv; [discriminate|].
  rewrite loop_unfold.
  destruct (walked + 1 >? WALK_LIMIT).
  { intros H; inversion H; subst. apply TipFirst_nil. }
  destruct (Contains (chainActive cs) walk).
  { intros H; inversion H; subst. apply Hinv. }
  destruct (walk_inv_visit walk toFetch Hinv) as [Hord Hanc].
  destruct (pprev (blk cs walk)) as [p|] eqn:Hp.
  - apply IH. split; [exact Hord|].
    intros x Hx. destruct (Hanc x Hx) as [->|[n Hn]].
    + exists 0%nat. simpl. rewrite Hp. reflexivity.
    + exists (S n). apply (nth_ancestor_step (S n) x walk p Hn Hp).
  - intros H; inversion H; subst. exact Hord.
Qed.

End FindMissingBlocksFacts.

Section WindowFacts.
Context `{env : Collaborators}.
Variable cs : ChainState.

Local Abbreviation outside := (fun g => Contains (chainActive cs) g = false).

(** [pprev] is a function, so the way down to the active chain is unique. *)
Lemma gap_to_unique p g1 g2 a1 a2 :
  gap_to cs p g1 a1 -> gap_to cs p g2 a2 ->
  Forall outside g1 -> Forall outside g2 ->
  Contains (chainActive cs) a1 = true -> Contains (chainActive cs) a2 = true ->
  g1 = g2.
Proof.
  intros H1. revert g2. induction H1 as [a1|p q g1 a1 Hp H1 IH];
    intros g2 H2 Ho1 Ho2 Ha1 Ha2.
  - inversion H2 as [|? ? ? ? _ _]; subst; [reflexivity|].
    inversion Ho2; subst. congruence.
  - inversion Ho1; subst.
    inversion H2 as [|? q' g2' ? Hp' H2']; subst; [congruence|].
    inversion Ho2; subst.
    assert (q' = q) by congruence; subst q'.
    f_equal. apply IH; assumption.
Qed.

Lemma gap_to_from_inside q gap a p :
  gap_to cs q gap a -> p ∈ gap ->
  exists gap', gap_to cs p gap' a /\ (length gap' <= length gap)%nat
               /\ Forall (fun x => x ∈ gap) gap'.
Proof.
  induction 1 as [a|q r gap a Hq Hgap IH]; intros Hin.
  - apply elem_of_nil in Hin. destruct Hin.
  - apply elem_of_cons in Hin as [->|Hin].
    + exists (q :: gap). split; [econstructor; eassumption|].
      split; [lia|]. apply Forall_forall. intros x Hx. exact Hx.
    + destruct (IH Hin) as (gap' & Hg & Hlen & Hsub).
      exists gap'. split; [exact Hg|]. split; [simpl; lia|].
      eapply Forall_impl; [exact Hsub|]. intros x Hx. right. exact Hx.
Qed.

Lemma gap_to_NoDup p gap a :
  gap_to cs p gap a -> Forall outside gap ->
  Contains (chainActive cs) a = true -> NoDup gap.
Proof.
  induction 1 as [a|p q gap a Hp Hgap IH]; intros Hout Ha.
  - constructor.
  - inversion Hout as [|? ? Hpo Hrest]; subst.
    constructor; [|apply IH; assumption].
    intros Hin.
    destruct (gap_to_from_inside q gap a p Hgap Hin) as (gap' & Hg & Hlen & Hsub).
    assert (Heq : gap' = p :: gap).
    { eapply gap_to_unique; [exact Hg|econstructor; eassumption| |exact Hout|exact Ha|exact Ha].
      eapply Forall_impl; [exact Hsub|]. simpl. intros x Hx.
      rewrite Forall_forall in Hrest. apply Hrest. exact Hx. }
    subst gap'. simpl in Hlen. lia.
Qed.

End WindowFacts.

(** C2. When the walk from [tip] reaches the active chain (at step
    [WALK_LIMIT] at the latest) after passing [K] wanted ancestors (no block
    data, not in flight) and [K] exceeds the transit cap [C],
    [findMissingBlocks] returns exactly [C] entries: the last [C] of the
    wanted ancestors in walk order, which are the ones nearest the active
    chain; the [K - C] wanted ancestors nearest the tip are not among
    them. *)
Theorem findMissingBlocks_keeps_oldest `{env : Collaborators}
    (cs : ChainState) (blocksInFlight : list (Z * Z))
    (tip : BlockPtr) (gap : list BlockPtr) (a : BlockPtr) :
  gap_to cs tip gap a ->
  Contains (chainActive cs) a = true ->
  Forall (fun g => Contains (chainActive cs) g = false) gap ->
  (length gap < Z.to_nat WALK_LIMIT)%nat ->
  (MAX_BLOCKS_IN_TRANSIT_PER_PEER <
     length (List.filter (wanted cs blocksInFlight) gap))%nat ->
  let missing := List.filter (wanted cs blocksInFlight) gap in
  exists window,
    findMissingBlocks cs blocksInFlight tip = Some window /\
    length window = MAX_BLOCKS_IN_TRANSIT_PER_PEER /\
    window = drop (length missing - MAX_BLOCKS_IN_TRANSIT_PER_PEER) missing /\
    forall x,
      x ∈ take (length missing - MAX_BLOCKS_IN_TRANSIT_PER_PEER) missing ->
      x ∉ window.
Proof.
  intros Hgap Ha Hout Hlen HK missing.
  exists (lastn MAX_BLOCKS_IN_TRANSIT_PER_PEER missing).
  split; [|split; [|split]].
  - unfold findMissingBlocks.
    rewrite (loop_reaches cs blocksInFlight _ 0 tip gap a []);
      [|assumption|assumption|assumption|unfold WALK_LIMIT in *; lia|lia].
    f_equal. apply (fold_visit_lastn cs blocksInFlight gap []).
  - unfold lastn. rewrite length_drop. fold missing in HK. lia.
  - reflexivity.
  - unfold lastn. intros x Htake Hdrop.
    assert (Hnd : NoDup missing).
    { apply NoDup_ListNoDup. apply List.NoDup_filter. apply NoDup_ListNoDup.
      eapply gap_to_NoDup; eassumption. }
    rewrite <- (take_drop (length missing - MAX_BLOCKS_IN_TRANSIT_PER_PEER) missing)
      in Hnd.
    apply NoDup_app in Hnd as (_ & Hdisj & _).
    apply (Hdisj x Htake Hdrop).
Qed.

(** A run of the walk on the reference chain: 20 wanted blocks above the
    genesis block and a transit cap of 16. *)
Lemma findMissingBlocks_keeps_oldest_witness :
  exists window,
    findMissingBlocks (Ref.line 21 1) [] 20 = Some window /\
    length window = 16%nat /\
    window = [16; 15; 14; 13; 12; 11; 10; 9; 8; 7; 6; 5; 4; 3; 2; 1]%nat /\
    forall x, x ∈ [20; 19; 18; 17]%nat -> x ∉ window.
Proof.
  refine (findMissingBlocks_keeps_oldest (Ref.line 21 1) [] 20%nat
            (rev (seq 1 20)) 0%nat _ _ _ _ _).
  - simpl. repeat (econstructor; [reflexivity|]). constructor.
  - reflexivity.
  - simpl. repeat constructor.
  - vm_compute. lia.
  - vm_compute. lia.
Defined.

(** C3 (as the code has it). For every tip, [findMissingBlocks] returns, and
    the sequence it returns runs from the entry nearest the walked tip
    (newest) first to the entry nearest the active chain (oldest) last: each
    entry is a strict ancestor of every entry before it. [suggestDownload]
    then visits it in reverse. *)
Theorem findMissingBlocks_tip_first `{env : Collaborators}
    (cs : ChainState) (blocksInFlight : list (Z * Z)) (last : BlockPtr) :
  exists l, findMissingBlocks cs blocksInFlight last = Some l /\ TipFirst cs l.
Proof.
  destruct (findMissingBlocks_total cs blocksInFlight last) as [l Hl].
  exists l. split; [exact Hl|].
  eapply loop_TipFirst; [|exact Hl].
  split; [apply TipFirst_nil|]. intros x Hx. apply elem_of_nil in Hx. destruct Hx.
Qed.

(** C3 as stated fails: above the genesis block with two wanted blocks, the
    walk from block 2 returns block 2 (the tip) first and block 1 (nearest
    the active chain) last, which is not chain first. *)
Lemma findMissingBlocks_not_chain_first :
  findMissingBlocks (Ref.line 3 1) [] 2 = Some [2; 1]%nat /\
  ~ ChainFirst (Ref.line 3 1) [2; 1]%nat.
Proof.
  split; [reflexivity|].
  intros H. destruct (H 0 1 2 1)%nat as [n Hn]; [lia|reflexivity|reflexivity|].
  destruct n as [|[|n]]; simpl in Hn; discriminate.
Qed.

(** ** Header acceptance *)

Section AcceptHeadersFacts.
Context `{env : Collaborators}.
Variable pfrom : NodeId.

Local Abbreviation accept_loop := (acceptHeaders_loop pfrom).

(** The loop reports only on its way out by exception; while it runs it
    changes the chain state and nothing else. *)
Lemma acceptHeaders_loop_returned headers p w r w' evs :
  accept_loop headers p w = (Returned r, w', evs) ->
  evs = [] /\ exists cs, w' = with_chain cs w.
Proof.
  revert p w. induction headers as [|h headers IH]; intros p w Hrun.
  - inversion Hrun; subst. split; [reflexivity|]. exists (chain w').
    destruct w'; reflexivity.
  - simpl in Hrun.
    destruct (match p with
              | Some p0 => negb (hashPrevBlock h =? GetBlockHash (blk (chain w) p0))
              | None => false
              end); [discriminate|].
    destruct (AcceptBlockHeader h p (chain w)) as [[[ok st] p'] cs].
    assert (Hnext : accept_loop headers p' (with_chain cs w) = (Returned r, w', evs)
                    -> evs = [] /\ exists cs0, w' = with_chain cs0 w).
    { intros Hn. destruct (IH _ _ Hn) as [-> [cs0 ->]].
      split; [reflexivity|]. exists cs0. reflexivity. }
    destruct ok; simpl in Hrun; [apply Hnext, Hrun|].
    destruct (IsInvalid st) as [n|]; [|apply Hnext, Hrun].
    destruct (0 <? n); discriminate.
Qed.

(** A batch whose front part is accepted continues with the rest from the
    state the front part left. *)
Lemma acceptHeaders_loop_app pre rest p w r w1 evs :
  accept_loop pre p w = (Returned r, w1, evs) ->
  accept_loop (pre ++ rest) p w = accept_loop rest r w1.
Proof.
  revert p w. induction pre as [|h pre IH]; intros p w Hrun.
  - inversion Hrun; subst. reflexivity.
  - simpl in Hrun. simpl.
    destruct (match p with
              | Some p0 => negb (hashPrevBlock h =? GetBlockHash (blk (chain w) p0))
              | None => false
              end); [discriminate|].
    destruct (AcceptBlockHeader h p (chain w)) as [[[ok st] p'] cs].
    destruct ok; simpl in *; [apply IH, Hrun|].
    destruct (IsInvalid st) as [n|]; [|apply IH, Hrun].
    destruct (0 <? n); discriminate.
Qed.

(** The rejected header: [AcceptBlockHeader] fails and marks the state
    invalid with penalty [n]. *)
Lemma acceptHeaders_loop_rejected h post pl w st pl' cs n :
  match pl with
  | Some p => hashPrevBlock h = GetBlockHash (blk (chain w) p)
  | None => True
  end ->
  AcceptBlockHeader h pl (chain w) = (false, st, pl', cs) ->
  IsInvalid st = Some n ->
  accept_loop (h :: post) pl w =
  (Thrown (BlockHeaderError_what "invalid header received"), with_chain cs w,
   if 0 <? n then [EvMisbehaving pfrom n "invalid header"] else []).
Proof.
  intros Hcont Hacc Hinv. simpl.
  assert (Hc : match pl with
               | Some p0 => negb (hashPrevBlock h =? GetBlockHash (blk (chain w) p0))
               | None => false
               end = false).
  { destruct pl as [p|]; [|reflexivity]. rewrite Hcont, Z.eqb_refl. reflexivity. }
  rewrite Hc, Hacc. simpl. rewrite Hinv.
  destruct (0 <? n); reflexivity.
Qed.

End AcceptHeadersFacts.

(** C4. A batch whose first header is accepted (and committed under its
    hash) and whose second header does not name the first as its previous
    block leaves [acceptHeaders] by the non-continuous-sequence error, with
    exactly one report, of 20 points, and the first header still committed
    in the chain index. *)
Theorem acceptHeaders_non_continuous `{env : Collaborators}
    (pfrom : NodeId) (H1 H2 : CBlockHeader) (rest : list CBlockHeader)
    (w : World) (st : CValidationState) (p1 : BlockPtr) (cs1 : ChainState) :
  AcceptBlockHeader H1 None (chain w) = (true, st, Some p1, cs1) ->
  mapBlockIndex cs1 !! GetHash H1 = Some p1 ->
  GetBlockHash (blk cs1 p1) = GetHash H1 ->
  hashPrevBlock H2 <> GetHash H1 ->
  exists w',
    acceptHeaders pfrom (H1 :: H2 :: rest) w =
      (Thrown (BlockHeaderError_what "non-continuous headers sequence"), w',
       [EvMisbehaving pfrom 20 "non-continuous header sequence"]) /\
    chain w' = cs1 /\
    mapBlockIndex (chain w') !! GetHash H1 = Some p1.
Proof.
  intros Hacc Hmap Hhash Hne. exists (with_chain cs1 w).
  split; [|split; [reflexivity|exact Hmap]].
  unfold acceptHeaders. simpl. rewrite Hacc. simpl. rewrite Hhash.
  destruct (Z.eqb_spec (hashPrevBlock H2) (GetHash H1)); [contradiction|].
  reflexivity.
Qed.

(** On the genesis block alone: a new header on top of it, followed by a
    header that names some other block. *)
Lemma acceptHeaders_non_continuous_witness :
  exists w',
    acceptHeaders 7 [Ref_header 1000 1; Ref_header 4242 2; Ref_header 1002 3]
      (Ref_world (Ref.line 1 1) 0) =
      (Thrown (BlockHeaderError_what "non-continuous headers sequence"), w',
       [EvMisbehaving 7 20 "non-continuous header sequence"]) /\
    chain w' = snd (Ref.AcceptBlockHeader (Ref_header 1000 1) None (Ref.line 1 1)) /\
    mapBlockIndex (chain w') !! 1001 = Some 1%nat.
Proof.
  refine (acceptHeaders_non_continuous 7 (Ref_header 1000 1) (Ref_header 4242 2)
            [Ref_header 1002 3] (Ref_world (Ref.line 1 1) 0)
            Ref.valid_state 1%nat _ _ _ _ _).
  - reflexivity.
  - reflexivity.
  - reflexivity.
  - simpl. lia.
Defined.

(** C5 (as the code has it). When the headers before it are accepted and a
    header is rejected by the chain index with its state marked invalid and
    a positive penalty [n], [acceptHeaders] reports the peer with exactly
    [n] points, the amount the chain index gave (not a fixed 20), and the
    reason "invalid header", and leaves by the invalid-header error. *)
Theorem acceptHeaders_invalid_header `{env : Collaborators}
    (pfrom : NodeId) (pre : list CBlockHeader) (h : CBlockHeader)
    (post : list CBlockHeader) (w w1 : World) (evs1 : list Event)
    (pl pl' : option BlockPtr) (st : CValidationState) (cs2 : ChainState) (n : Z) :
  acceptHeaders_loop pfrom pre None w = (Returned pl, w1, evs1) ->
  match pl with
  | Some p => hashPrevBlock h = GetBlockHash (blk (chain w1) p)
  | None => True
  end ->
  AcceptBlockHeader h pl (chain w1) = (false, st, pl', cs2) ->
  IsInvalid st = Some n ->
  0 < n ->
  acceptHeaders pfrom (pre ++ h :: post) w =
    (Thrown (BlockHeaderError_what "invalid header received"), with_chain cs2 w1,
     [EvMisbehaving pfrom n "invalid header"]).
Proof.
  intros Hpre Hcont Hacc Hinv Hpos. unfold acceptHeaders.
  rewrite (acceptHeaders_loop_app pfrom pre (h :: post) None w pl w1 evs1 Hpre).
  rewrite (acceptHeaders_loop_rejected pfrom h post pl w1 st pl' cs2 n Hcont Hacc Hinv).
  destruct (Z.ltb_spec 0 n); [reflexivity|lia].
Qed.

(** A new header on the genesis block is accepted; the next header names it
    as its previous block but fails its own checks, which the reference
    chain index rejects with penalty 50. *)
Lemma acceptHeaders_invalid_header_witness :
  acceptHeaders 7
    ([Ref_header 1000 1] ++
     {| hashPrevBlock := 1001; nNonce := 0; GetHash := 1002 |} :: [Ref_header 1002 3])
    (Ref_world (Ref.line 1 1) 0) =
  (Thrown (BlockHeaderError_what "invalid header received"),
   with_chain (snd (Ref.AcceptBlockHeader (Ref_header 1000 1) None (Ref.line 1 1)))
     (Ref_world (Ref.line 1 1) 0),
   [EvMisbehaving 7 50 "invalid header"]).
Proof.
  refine (acceptHeaders_invalid_header 7 [Ref_header 1000 1]
            {| hashPrevBlock := 1001; nNonce := 0; GetHash := 1002 |}
            [Ref_header 1002 3] (Ref_world (Ref.line 1 1) 0)
            (with_chain (snd (Ref.AcceptBlockHeader (Ref_header 1000 1) None (Ref.line 1 1)))
               (Ref_world (Ref.line 1 1) 0))
            [] (Some 1%nat) (Some 1%nat) (Ref.DoS 50) _ 50 _ _ _ _ _).
  - reflexivity.
  - reflexivity.
  - reflexivity.
  - reflexivity.
  - lia.
Defined.

(** C5 as stated fails: a header whose previous block is unknown is rejected
    by the reference chain index with penalty 10, and the report carries
    those 10 points; no report of 20 points is made. *)
Lemma acceptHeaders_invalid_header_not_20_points :
  (exists st pl' cs',
     AcceptBlockHeader (Ref_header 4242 2) None (Ref.line 1 1) = (false, st, pl', cs') /\
     IsInvalid st = Some 10) /\
  exists w',
    acceptHeaders 7 [Ref_header 4242 2] (Ref_world (Ref.line 1 1) 0) =
      (Thrown (BlockHeaderError_what "invalid header received"), w',
       [EvMisbehaving 7 10 "invalid header"]) /\
    [EvMisbehaving 7 10 "invalid header"] <> [EvMisbehaving 7 20 "invalid header"].
Proof.
  split.
  - eexists _, _, _. split; reflexivity.
  - eexists. split; [reflexivity|]. discriminate.
Qed.



(** ** The download suggestion *)

Lemma suggest_events_cons pfrom k h hs :
  suggest_events pfrom (S k) (h :: hs) =
  EvOnBlockAnnounced h pfrom :: EvMarkAsInFlight pfrom h :: suggest_events pfrom k hs.
Proof. reflexivity. Qed.

Lemma marked_suggest_events pfrom k hs :
  marked (suggest_events pfrom k hs) = map (fun h => (pfrom, h)) (take k hs).
Proof.
  revert k. induction hs as [|h hs IH]; intros [|k]; try reflexivity.
  rewrite suggest_events_cons. simpl. f_equal. apply IH.
Qed.

Lemma announced_suggest_events pfrom k hs :
  announced (suggest_events pfrom k hs) = take (S k) hs.
Proof.
  revert k. induction hs as [|h hs IH]; intros [|k]; try reflexivity.
  - rewrite suggest_events_cons. simpl. f_equal. apply IH.
Qed.

Lemma getdata_suggest_events pfrom k hs :
  getdata_sent (suggest_events pfrom k hs) = [].
Proof.
  revert k. induction hs as [|h hs IH]; intros [|k]; try reflexivity.
  rewrite suggest_events_cons. simpl. apply IH.
Qed.

Lemma check_suggest_events pfrom k hs :
  List.filter is_checkBlockIndex (suggest_events pfrom k hs) = [].
Proof.
  revert k. induction hs as [|h hs IH]; intros [|k]; try reflexivity.
  rewrite suggest_events_cons. simpl. apply IH.
Qed.

Section SuggestDownloadFacts.
Context `{env : Collaborators}.
Variable pfrom : NodeId.

Lemma suggestDownload_loop_cons b bs toGet w :
  suggestDownload_loop pfrom (b :: bs) toGet w =
  match decideAnnounced (GetBlockHash (blk (chain w) b)) pfrom (inFlight w) (thin w) with
  | (false, t) =>
    (Returned toGet, with_thin t w,
     [EvOnBlockAnnounced (GetBlockHash (blk (chain w) b)) pfrom])
  | (true, t) =>
    match suggestDownload_loop pfrom bs
            (toGet ++ [CInv_of MSG_BLOCK (GetBlockHash (blk (chain w) b))])
            (with_inFlight (inFlight w ++ [(pfrom, GetBlockHash (blk (chain w) b))])
               (with_thin t w)) with
    | (r, w', evs) =>
      (r, w',
       EvOnBlockAnnounced (GetBlockHash (blk (chain w) b)) pfrom
       :: EvMarkAsInFlight pfrom (GetBlockHash (blk (chain w) b)) :: evs)
    end
  end.
Proof.
  simpl. unfold mbind, M_bind, onBlockAnnounced.
  destruct (decideAnnounced _ pfrom (inFlight w) (thin w)) as [[|] t]; simpl.
  - unfold markAsInFlight. simpl.
    destruct (suggestDownload_loop pfrom bs _ _) as [[r w'] evs]. reflexivity.
  - reflexivity.
Qed.

(** The loop admits a front part of the blocks it is given, in the order it
    is given them, and stops at the first one declined. *)
Lemma suggestDownload_loop_run bs toGet w :
  exists k w',
    (k <= length bs)%nat /\
    suggestDownload_loop pfrom bs toGet w =
      (Returned
         (toGet ++ map (CInv_of MSG_BLOCK)
                     (take k (map (fun b => GetBlockHash (blk (chain w) b)) bs))),
       w',
       suggest_events pfrom k (map (fun b => GetBlockHash (blk (chain w) b)) bs)) /\
    chain w' = chain w /\
    nodeState w' = nodeState w /\
    inFlight w' =
      inFlight w ++
      map (fun h => (pfrom, h))
        (take k (map (fun b => GetBlockHash (blk (chain w) b)) bs)) /\
    admits_exactly pfrom (map (fun b => GetBlockHash (blk (chain w) b)) bs)
      (inFlight w) (thin w) k (thin w').
Proof.
  revert toGet w. induction bs as [|b bs IH]; intros toGet w.
  - exists 0%nat, w. simpl. rewrite !app_nil_r.
    repeat split; try reflexivity; try lia. constructor.
  - rewrite suggestDownload_loop_cons.
    destruct (decideAnnounced _ pfrom (inFlight w) (thin w)) as [[|] t] eqn:Hdec.
    + destruct (IH (toGet ++ [CInv_of MSG_BLOCK (GetBlockHash (blk (chain w) b))])
                  (with_inFlight (inFlight w ++ [(pfrom, GetBlockHash (blk (chain w) b))])
                     (with_thin t w)))
        as (k & w' & Hk & Hrun & Hchain & Hns & Hfl & Hadm).
      exists (S k), w'. rewrite Hrun. simpl in *.
      rewrite <- !app_assoc in *. simpl in *.
      repeat split; try assumption; try lia.
      eapply admits_next; [exact Hdec|exact Hadm].
    + exists 0%nat, (with_thin t w). simpl. rewrite !app_nil_r.
      repeat split; try reflexivity; try lia.
      apply admits_declined. exact Hdec.
Qed.

(** The calls of one [suggestDownload]: the marker, the loop, and one
    [getdata] message unless nothing was admitted. *)
Lemma suggestDownload_run toFetch last w :
  exists k w',
    suggestDownload pfrom toFetch last w =
      (Returned tt, w',
       EvSuggestDownload toFetch last
       :: suggest_events pfrom k
            (map (fun b => GetBlockHash (blk (chain w) b)) (rev toFetch))
          ++ match k with
             | O => []
             | S _ =>
               [EvPushMessage pfrom
                  (GETDATA
                     (map (CInv_of MSG_BLOCK)
                        (take k (map (fun b => GetBlockHash (blk (chain w) b))
                                   (rev toFetch)))))]
             end) /\
    (k <= length toFetch)%nat /\
    chain w' = chain w /\
    nodeState w' = nodeState w /\
    inFlight w' =
      inFlight w ++
      map (fun h => (pfrom, h))
        (take k (map (fun b => GetBlockHash (blk (chain w) b)) (rev toFetch))) /\
    admits_exactly pfrom
      (map (fun b => GetBlockHash (blk (chain w) b)) (rev toFetch))
      (inFlight w) (thin w) k (thin w').
Proof.
  destruct (suggestDownload_loop_run (rev toFetch) [] w)
    as (k & w' & Hk & Hrun & Hchain & Hns & Hfl & Hadm).
  rewrite length_rev in Hk.
  exists k, w'. split; [|repeat split; assumption].
  unfold suggestDownload, mbind, M_bind, emit. simpl. rewrite Hrun. simpl.
  destruct k as [|k]; [rewrite take_0; reflexivity|].
  destruct (map _ (rev toFetch)) as [|h hashes] eqn:Hh; [|reflexivity].
  apply (f_equal length) in Hh. rewrite length_map, length_rev in Hh.
  simpl in Hh. lia.
Qed.

(** The answers behind [admits_exactly], one by one: each of the first [k]
    hashes was admitted when asked with the earlier ones in flight, and the
    hash at position [k], if there is one, was declined, which left the state
    [t']. *)
Lemma admits_exactly_answers hs idx t k t' :
  admits_exactly pfrom hs idx t k t' ->
  (k <= length hs)%nat /\
  (forall i h, (i < k)%nat -> hs !! i = Some h ->
     exists ti ti',
       decideAnnounced h pfrom (idx ++ map (fun x => (pfrom, x)) (take i hs)) ti
       = (true, ti')) /\
  (forall h, hs !! k = Some h ->
     exists tk,
       decideAnnounced h pfrom (idx ++ map (fun x => (pfrom, x)) (take k hs)) tk
       = (false, t')).
Proof.
  induction 1 as [idx t|h hs idx t t' Hdec|h hs idx t t1 k t' Hdec Hadm IH].
  - split; [simpl; lia|]. split; [intros i h Hi; lia|].
    intros h Hh. simpl in Hh. discriminate.
  - split; [simpl; lia|]. split; [intros i h0 Hi; lia|].
    intros h0 Hh. simpl in Hh. inversion Hh; subst. exists t.
    simpl. rewrite app_nil_r. exact Hdec.
  - destruct IH as (Hk & Hfirst & Hnext). split; [simpl; lia|]. split.
    + intros [|i] h0 Hi Hh; simpl in Hh.
      * inversion Hh; subst. exists t, t1. simpl. rewrite app_nil_r. exact Hdec.
      * destruct (Hfirst i h0 ltac:(lia) Hh) as (ti & ti' & Hd).
        exists ti, ti'. simpl. rewrite <- app_assoc in Hd. exact Hd.
    + intros h0 Hh. simpl in Hh. destruct (Hnext h0 Hh) as (tk & Hd).
      exists tk. simpl. rewrite <- app_assoc in Hd. exact Hd.
Qed.

(** The decision fixes the number admitted and the state it is left in. *)
Lemma admits_exactly_unique hs idx t k1 t1 k2 t2 :
  admits_exactly pfrom hs idx t k1 t1 ->
  admits_exactly pfrom hs idx t k2 t2 ->
  k1 = k2 /\ t1 = t2.
Proof.
  intros H1. revert k2 t2.
  induction H1 as [idx t|h hs idx t t' Hdec|h hs idx t t1 k t' Hdec Hadm IH];
    intros k2 t2 H2; inversion H2; subst; try (split; congruence).
  assert (t3 = t1) by congruence. subst t3.
  destruct (IH _ _ ltac:(eassumption)) as [-> ->]. split; reflexivity.
Qed.

End SuggestDownloadFacts.

(** C7. Whatever the window and the admission decision, [suggestDownload]
    returns having admitted some number [k] of hashes, and [k] is what the
    admission decision makes it: taking the window in the order it is
    visited (the reverse of the order [findMissingBlocks] returns, so nearest
    the known chain first), the decision admitted each of the first [k]
    hashes when asked, with the earlier ones already marked in flight, and
    declined the hash at position [k] if there is one. The hashes marked in
    flight for the peer and the hashes requested in the one [getdata]
    message are exactly the first [k]; the admission decision was asked about
    the first [k + 1] only, the declined hash and none after it, and its
    state is the one its answer to the declined hash left. *)
Theorem suggestDownload_requests_prefix `{env : Collaborators}
    (pfrom : NodeId) (toFetch : list BlockPtr) (last : BlockPtr) (w : World) :
  let hashes := map (fun b => GetBlockHash (blk (chain w) b)) (rev toFetch) in
  exists k w' evs,
    suggestDownload pfrom toFetch last w = (Returned tt, w', evs) /\
    (k <= length toFetch)%nat /\
    marked evs = map (fun h => (pfrom, h)) (take k hashes) /\
    announced evs = take (S k) hashes /\
    getdata_sent evs =
      match k with
      | O => []
      | S _ => [(pfrom, map (CInv_of MSG_BLOCK) (take k hashes))]
      end /\
    inFlight w' = inFlight w ++ map (fun h => (pfrom, h)) (take k hashes) /\
    admits_exactly pfrom hashes (inFlight w) (thin w) k (thin w') /\
    (forall i h, (i < k)%nat -> hashes !! i = Some h ->
       exists ti ti',
         decideAnnounced h pfrom
           (inFlight w ++ map (fun x => (pfrom, x)) (take i hashes)) ti
         = (true, ti')) /\
    (forall h, hashes !! k = Some h ->
       exists tk,
         decideAnnounced h pfrom
           (inFlight w ++ map (fun x => (pfrom, x)) (take k hashes)) tk
         = (false, thin w')).
Proof.
  intros hashes.
  destruct (suggestDownload_run pfrom toFetch last w)
    as (k & w' & Hrun & Hk & Hchain & Hns & Hfl & Hadm).
  fold hashes in Hrun, Hfl, Hadm.
  destruct (admits_exactly_answers pfrom _ _ _ _ _ Hadm) as (_ & Hfirst & Hnext).
  eexists k, w', _. split; [exact Hrun|]. split; [exact Hk|].
  unfold marked, announced, getdata_sent. simpl. rewrite !omap_app.
  fold (marked (suggest_events pfrom k hashes)).
  fold (announced (suggest_events pfrom k hashes)).
  fold (getdata_sent (suggest_events pfrom k hashes)).
  rewrite marked_suggest_events, announced_suggest_events, getdata_suggest_events.
  repeat match goal with |- _ /\ _ => split end;
    try assumption;
    destruct k as [|k]; simpl; rewrite ?app_nil_r; reflexivity.
Qed.

(** Three blocks above the genesis block and room for one: the decision
    admits the block nearest the chain and declines the next; the third is
    not asked about. *)
Example suggestDownload_room_for_one :
  exists w' evs,
    suggestDownload 7 [3; 2; 1]%nat 3 (Ref_world (Ref.line 4 1) 1)
      = (Returned tt, w', evs) /\
    announced evs = [1001; 1002] /\
    marked evs = [(7, 1001)] /\
    getdata_sent evs = [(7, [CInv_of MSG_BLOCK 1001])] /\
    admits_exactly 7 [1001; 1002; 1003] [] 1%nat 1 0%nat.
Proof.
  eexists _, _. split; [reflexivity|]. repeat split.
  eapply admits_next; [reflexivity|]. apply admits_declined. reflexivity.
Qed.

(** ** The entry point *)

Section OperatorFacts.
Context `{env : Collaborators}.
Variable pfrom : NodeId.

Lemma quiet_ret {A} (a : A) : quiet (mret a).
Proof. intros w. split; [discriminate|reflexivity]. Qed.

Lemma quiet_bind {A B} (m : M A) (k : A -> M B) :
  quiet m -> (forall a, quiet (k a)) -> quiet (m ≫= k).
Proof.
  intros Hm Hk w. unfold mbind, M_bind. specialize (Hm w).
  destruct (m w) as [[[a|e|f] w1] ev1]; destruct Hm as [Hthrow Hev].
  - specialize (Hk a w1). destruct (k a w1) as [[r w2] ev2].
    destruct Hk as [Hthrow2 Hev2]. split; [exact Hthrow2|].
    rewrite List.filter_app, Hev, Hev2. reflexivity.
  - destruct (Hthrow e). reflexivity.
  - split; [discriminate|exact Hev].
Qed.

Lemma quiet_reading {A X} (g : World -> X) (f : X -> M A) :
  (forall x, quiet (f x)) -> quiet (fun w => f (g w) w).
Proof. intros Hf w. apply (Hf (g w) w). Qed.

Lemma quiet_emit e : is_checkBlockIndex e = false -> quiet (emit e).
Proof. intros He w. simpl. rewrite He. split; [discriminate|reflexivity]. Qed.

Lemma quiet_UpdateBlockAvailability id hash : quiet (UpdateBlockAvailability id hash).
Proof. intros w. split; [discriminate|reflexivity]. Qed.

Lemma quiet_set_unconnectingHeaders id v : quiet (set_unconnectingHeaders id v).
Proof. intros w. split; [discriminate|reflexivity]. Qed.

Lemma quiet_hasEqualOrMoreWork p : quiet (hasEqualOrMoreWork p).
Proof.
  intros w. unfold hasEqualOrMoreWork.
  destruct (negb _); [split; [discriminate|reflexivity]|].
  destruct (Tip _); split; discriminate || reflexivity.
Qed.

Lemma quiet_findMissingBlocksM p : quiet (findMissingBlocksM p).
Proof.
  intros w. unfold findMissingBlocksM.
  destruct (findMissingBlocks _ _ p); split; discriminate || reflexivity.
Qed.

(** The walk always returns: the fuel it is given is never used up. *)
Lemma findMissingBlocksM_returns p w :
  exists toFetch,
    findMissingBlocks (chain w) (inFlight w) p = Some toFetch /\
    findMissingBlocksM p w = (Returned toFetch, w, [EvFindMissingBlocks p]).
Proof.
  destruct (findMissingBlocks_total (chain w) (inFlight w) p) as [toFetch Hsome].
  exists toFetch. split; [exact Hsome|].
  unfold findMissingBlocksM. rewrite Hsome. reflexivity.
Qed.

Lemma quiet_suggestDownload toFetch last : quiet (suggestDownload pfrom toFetch last).
Proof.
  intros w.
  destruct (suggestDownload_loop_run pfrom (rev toFetch) [] w)
    as (k & w' & _ & Hrun & _).
  unfold suggestDownload, mbind, M_bind, emit. simpl. rewrite Hrun. simpl.
  destruct (map (CInv_of MSG_BLOCK) _); simpl;
    (split; [discriminate|]);
    rewrite List.filter_app, check_suggest_events; reflexivity.
Qed.

Lemma ends_checked_bind {A B} (m : M A) (k : A -> M B) :
  quiet m -> (forall a, ends_checked (k a)) -> ends_checked (m ≫= k).
Proof.
  intros Hm Hk w. unfold mbind, M_bind. specialize (Hm w).
  destruct (m w) as [[[a|e|f] w1] ev1]; destruct Hm as [Hthrow Hev].
  - specialize (Hk a w1). destruct (k a w1) as [[[b|e|f] w2] ev2].
    + destruct Hk as (evs' & -> & Hev2). exists (ev1 ++ evs').
      split; [apply app_assoc|]. rewrite List.filter_app, Hev, Hev2. reflexivity.
    + destruct Hk.
    + rewrite List.filter_app, Hev, Hk. reflexivity.
  - destruct (Hthrow e). reflexivity.
  - exact Hev.
Qed.

Lemma ends_checked_last {A} (a : A) : ends_checked (checkBlockIndex;; mret a).
Proof. intros w. exists []. split; reflexivity. Qed.

Lemma operator_call_after_accept headers peerSentMax maybeAnnouncement :
  operator_call pfrom headers peerSentMax maybeAnnouncement =
  acceptHeaders pfrom headers ≫= after_accept pfrom peerSentMax maybeAnnouncement.
Proof. reflexivity. Qed.

Lemma after_accept_ends_checked peerSentMax maybeAnnouncement pindexLast :
  ends_checked (after_accept pfrom peerSentMax maybeAnnouncement pindexLast).
Proof.
  unfold after_accept.
  apply ends_checked_bind; [apply quiet_set_unconnectingHeaders|intros _].
  apply ends_checked_bind.
  { destruct pindexLast as [p|]; [|apply quiet_ret].
    apply (quiet_reading (fun w => GetBlockHash (blk (chain w) p))
             (UpdateBlockAvailability pfrom)).
    intros x. apply quiet_UpdateBlockAvailability. }
  intros _. apply ends_checked_bind.
  { destruct pindexLast as [p|]; [|apply quiet_ret].
    destruct peerSentMax; [|apply quiet_ret].
    apply (quiet_reading (fun w => chainActive (chain w))
             (fun c => PushMessage pfrom (GETHEADERS (GetLocator c (Some p)) 0))).
    intros x. apply quiet_emit. reflexivity. }
  intros _. apply ends_checked_bind.
  { destruct pindexLast as [p|]; [|apply quiet_ret].
    destruct maybeAnnouncement; [|apply quiet_ret].
    apply quiet_bind; [apply quiet_hasEqualOrMoreWork|intros [|]]; [|apply quiet_ret].
    apply quiet_bind; [apply quiet_findMissingBlocksM|intros toFetch].
    apply quiet_suggestDownload. }
  intros _. apply ends_checked_last.
Qed.

Lemma acceptHeaders_loop_no_check headers p w :
  List.filter is_checkBlockIndex (snd (acceptHeaders_loop pfrom headers p w)) = [].
Proof.
  revert p w. induction headers as [|h headers IH]; intros p w; [reflexivity|].
  simpl.
  destruct (match p with
            | Some p0 => negb (hashPrevBlock h =? GetBlockHash (blk (chain w) p0))
            | None => false
            end); [reflexivity|].
  destruct (AcceptBlockHeader h p (chain w)) as [[[ok st] p'] cs].
  destruct ok; simpl; [apply IH|].
  destruct (IsInvalid st) as [n|]; [|apply IH].
  destruct (0 <? n); reflexivity.
Qed.

End OperatorFacts.

(** C6 (as the code has it). [checkBlockIndex] is called exactly once, as the
    last action, in every invocation of the entry point that returns. An
    invocation that [acceptHeaders] leaves by a batch-fatal error ends with
    that error, in the state and with the calls of [acceptHeaders] alone:
    [checkBlockIndex] is not called. *)
Theorem operator_call_checkBlockIndex `{env : Collaborators}
    (pfrom : NodeId) (headers : list CBlockHeader)
    (peerSentMax maybeAnnouncement : bool) (w : World) :
  match operator_call pfrom headers peerSentMax maybeAnnouncement w with
  | (Returned _, _, evs) =>
    exists evs', evs = evs' ++ [EvCheckBlockIndex] /\
                 List.filter is_checkBlockIndex evs' = []
  | (Thrown e, w', evs) =>
    acceptHeaders pfrom headers w = (Thrown e, w', evs) /\
    List.filter is_checkBlockIndex evs = []
  | (Stuck _, _, evs) => List.filter is_checkBlockIndex evs = []
  end.
Proof.
  rewrite operator_call_after_accept. unfold mbind, M_bind.
  pose proof (acceptHeaders_loop_no_check pfrom headers None w) as Hquiet.
  fold (acceptHeaders pfrom headers) in Hquiet.
  destruct (acceptHeaders pfrom headers w) as [[[pl|e|f] w1] ev1] eqn:Hacc;
    simpl in Hquiet.
  - pose proof (after_accept_ends_checked pfrom peerSentMax maybeAnnouncement pl w1)
      as Hrest.
    destruct (after_accept pfrom peerSentMax maybeAnnouncement pl w1)
      as [[[r|e|f] w2] ev2].
    + destruct Hrest as (evs' & -> & Hev). exists (ev1 ++ evs').
      split; [apply app_assoc|]. rewrite List.filter_app, Hquiet, Hev. reflexivity.
    + destruct Hrest.
    + rewrite List.filter_app, Hquiet, Hrest. reflexivity.
  - split; [reflexivity|exact Hquiet].
  - exact Hquiet.
Qed.

(** C6 as stated fails: a batch whose second header does not continue the
    first aborts the entry point, and [checkBlockIndex] is not among the
    calls made. *)
Lemma operator_call_abort_skips_checkBlockIndex :
  exists w',
    operator_call 7 [Ref_header 1000 1; Ref_header 4242 2] false true
      (Ref_world (Ref.line 1 1) 10) =
      (Thrown (BlockHeaderError_what "non-continuous headers sequence"), w',
       [EvMisbehaving 7 20 "non-continuous header sequence"]) /\
    ~ In EvCheckBlockIndex [EvMisbehaving 7 20 "non-continuous header sequence"].
Proof.
  eexists. split; [reflexivity|]. intros [H|[]]. discriminate.
Qed.

Section WorkGateFacts.
Context `{env : Collaborators}.
Variable pfrom : NodeId.

(** The calls of the entry point after [acceptHeaders] returned [last] for
    a batch that may be an announcement: the availability update, the
    continuation request if the batch was full, the calls of the fetch stage,
    and [checkBlockIndex]. The fetch stage starts with the walk and the
    suggestion when the gate is open and is empty when it is shut. *)
Lemma after_accept_gate peerSentMax last tip w :
  Tip (chainActive (chain w)) = Some tip ->
  exists w' fetch,
    after_accept pfrom peerSentMax true (Some last) w =
      (Returned (Some last), w',
       [EvUpdateBlockAvailability pfrom (GetBlockHash (blk (chain w) last))]
       ++ (if peerSentMax
           then [EvPushMessage pfrom (GETHEADERS (LocatorFor (Some last)) 0)]
           else [])
       ++ fetch ++ [EvCheckBlockIndex]) /\
    if IsValid (blk (chain w) last) BLOCK_VALID_TREE
       && (nChainWork (blk (chain w) tip) <=? nChainWork (blk (chain w) last))
    then exists toFetch rest,
        fetch = EvFindMissingBlocks last :: EvSuggestDownload toFetch last :: rest
    else fetch = [].
Proof.
  intros Htip.
  unfold after_accept, mbind, M_bind, set_unconnectingHeaders,
    UpdateBlockAvailability, PushMessage, checkBlockIndex, emit, hasEqualOrMoreWork.
  destruct peerSentMax; simpl; rewrite Htip;
    destruct (IsValid (blk (chain w) last) BLOCK_VALID_TREE); simpl;
    try (eexists _, []; split; reflexivity);
    destruct (nChainWork (blk (chain w) tip) <=? nChainWork (blk (chain w) last));
    simpl;
    try (eexists _, []; split; reflexivity);
    unfold findMissingBlocksM; simpl;
    match goal with
    | |- context [findMissingBlocks ?cs ?idx last] =>
      destruct (findMissingBlocks_total cs idx last) as [toFetch ->]
    end;
    match goal with
    | |- context [suggestDownload pfrom ?tf last ?w0] =>
      destruct (suggestDownload_run pfrom tf last w0) as (k & w' & -> & _)
    end;
    simpl; eexists _, (_ :: _ :: _); (split; [reflexivity|]); eexists _, _;
    reflexivity.
Qed.

End WorkGateFacts.

(** C8. When [acceptHeaders] returned a node [last] and the batch may be an
    announcement, the entry point performs the missing-ancestor walk and the
    download suggestion if and only if [last] passes
    [IsValid(BLOCK_VALID_TREE)] and its chain work is at least the work of
    the tip of the active chain; when the gate is shut, nothing of the fetch
    stage happens. *)
Theorem operator_call_work_gate `{env : Collaborators}
    (pfrom : NodeId) (headers : list CBlockHeader) (peerSentMax : bool)
    (w w1 : World) (evs1 : list Event) (last tip : BlockPtr) :
  acceptHeaders pfrom headers w = (Returned (Some last), w1, evs1) ->
  Tip (chainActive (chain w1)) = Some tip ->
  let gate :=
    IsValid (blk (chain w1) last) BLOCK_VALID_TREE = true /\
    nChainWork (blk (chain w1) tip) <= nChainWork (blk (chain w1) last) in
  exists w' evs,
    operator_call pfrom headers peerSentMax true w = (Returned (Some last), w', evs) /\
    (In (EvFindMissingBlocks last) evs <-> gate) /\
    ((exists toFetch, In (EvSuggestDownload toFetch last) evs) <-> gate) /\
    (~ gate -> List.filter is_fetch_stage evs = []).
Proof.
  intros Hacc Htip gate.
  destruct (acceptHeaders_loop_returned pfrom headers None w _ _ _ Hacc)
    as [-> [cs Hw1]].
  destruct (after_accept_gate pfrom peerSentMax last tip w1 Htip)
    as (w' & fetch & Hrun & Hfetch).
  rewrite operator_call_after_accept. unfold mbind at 1, M_bind at 1.
  rewrite Hacc, Hrun. eexists w', _. split; [reflexivity|].
  assert (Hgate : gate <->
                  IsValid (blk (chain w1) last) BLOCK_VALID_TREE
                  && (nChainWork (blk (chain w1) tip)
                      <=? nChainWork (blk (chain w1) last)) = true).
  { unfold gate. rewrite andb_true_iff, Z.leb_le. reflexivity. }
  destruct (IsValid (blk (chain w1) last) BLOCK_VALID_TREE
            && (nChainWork (blk (chain w1) tip) <=? nChainWork (blk (chain w1) last))).
  - destruct Hfetch as (toFetch & rest & ->).
    assert (Hg : gate) by (apply Hgate; reflexivity).
    split; [|split].
    + split; [intros _; exact Hg|intros _].
      destruct peerSentMax; simpl; auto.
    + split; [intros _; exact Hg|intros _]. exists toFetch.
      destruct peerSentMax; simpl; auto.
    + intros Hn. destruct (Hn Hg).
  - subst fetch.
    assert (Hg : ~ gate) by (intros Hg; apply Hgate in Hg; discriminate).
    split; [|split].
    + split; [|intros Hg'; destruct (Hg Hg')].
      destruct peerSentMax; simpl; intros Hin;
        repeat (destruct Hin as [Hin|Hin]; [discriminate|]); destruct Hin.
    + split; [|intros Hg'; destruct (Hg Hg')].
      destruct peerSentMax; simpl; intros [toFetch Hin];
        repeat (destruct Hin as [Hin|Hin]; [discriminate|]); destruct Hin.
    + intros _. destruct peerSentMax; reflexivity.
Qed.

(** Three headers announced on top of an active chain of three blocks: the
    last accepted block has more work than the tip, so the gate is open. *)
Lemma operator_call_work_gate_witness :
  exists w' evs,
    operator_call 7 [Ref_header 1002 3; Ref_header 1003 4] false true
      (Ref_world (Ref.line 3 3) 10) = (Returned (Some 4%nat), w', evs) /\
    (In (EvFindMissingBlocks 4) evs <->
     IsValid (Ref.line_blk 4) BLOCK_VALID_TREE = true /\ 2 <= 4) /\
    ((exists toFetch, In (EvSuggestDownload toFetch 4) evs) <->
     IsValid (Ref.line_blk 4) BLOCK_VALID_TREE = true /\ 2 <= 4) /\
    (~ (IsValid (Ref.line_blk 4) BLOCK_VALID_TREE = true /\ 2 <= 4) ->
     List.filter is_fetch_stage evs = []).
Proof.
  refine (operator_call_work_gate 7 [Ref_header 1002 3; Ref_header 1003 4] false
            (Ref_world (Ref.line 3 3) 10)
            (snd (fst (acceptHeaders 7 [Ref_header 1002 3; Ref_header 1003 4]
                         (Ref_world (Ref.line 3 3) 10))))
            [] 4%nat 2%nat _ _).
  - reflexivity.
  - reflexivity.
Defined.

(** A header on top of block 1 of an active chain of five blocks: the new
    block has less work than the tip, the gate is shut and nothing is
    fetched. *)
Example operator_call_less_work :
  exists w',
    operator_call 7 [Ref_header 1001 77] false true (Ref_world (Ref.line 5 5) 10) =
    (Returned (Some 5%nat), w', [EvUpdateBlockAvailability 7 1077; EvCheckBlockIndex]).
Proof. eexists. reflexivity. Qed.

(** ** Unconnecting headers *)

Lemma wrap_int_small z : INT_MIN <= z <= INT_MAX -> wrap_int z = z.
Proof.
  unfold wrap_int, INT_MIN, INT_MAX. intros Hz.
  rewrite Z.mod_small; lia.
Qed.

Lemma rem_10_divide z : Z.rem z 10 = 0 <-> (10 | z).
Proof. apply Z.rem_divide. discriminate. Qed.

Section RequestConnectHeadersFacts.
Context `{env : Collaborators}.

(** One call on a header that does not connect. *)
Lemma requestConnectHeaders_run h from bumpUnconnecting w :
  headerConnects (chain w) h = false ->
  exists w',
    requestConnectHeaders h from bumpUnconnecting w =
      (Returned true, w',
       [EvUpdateBlockAvailability from (GetHash h);
        EvPushMessage from (GETHEADERS (LocatorFor (pindexBestHeader (chain w))) 0)]
       ++ (if bumpUnconnecting
              && (Z.rem (wrap_int (unconnectingHeaders (nodeState w from) + 1))
                    MAX_UNCONNECTING_HEADERS =? 0)
           then [EvMisbehaving from 20 "unconnecting-headers"]
           else [])) /\
    chain w' = chain w /\
    unconnectingHeaders (nodeState w' from) =
      (if bumpUnconnecting
       then wrap_int (unconnectingHeaders (nodeState w from) + 1)
       else unconnectingHeaders (nodeState w from)) /\
    bestKnownHeader (nodeState w' from) = Some (GetHash h).
Proof.
  intros Hconn.
  unfold requestConnectHeaders, mbind, M_bind, UpdateBlockAvailability, PushMessage,
    emit, incr_unconnectingHeaders, Misbehaving.
  rewrite Hconn. destruct bumpUnconnecting; simpl.
  - rewrite fn_lookup_insert. simpl.
    destruct (Z.rem _ MAX_UNCONNECTING_HEADERS =? 0); simpl;
      (eexists; split; [reflexivity|]); simpl; rewrite fn_lookup_insert;
      repeat split; reflexivity.
  - eexists; split; [reflexivity|]. simpl. rewrite fn_lookup_insert.
    repeat split; reflexivity.
Qed.

(** A run of calls on headers that do not connect: the counter goes up by
    one per call and a report is made each time it passes a multiple of
    ten. *)
Lemma requestConnectHeaders_each_run hs from w :
  Forall (fun h => headerConnects (chain w) h = false) hs ->
  INT_MIN <= unconnectingHeaders (nodeState w from) ->
  unconnectingHeaders (nodeState w from) + Z.of_nat (length hs) <= INT_MAX ->
  exists w' evs,
    requestConnectHeaders_each hs from true w = (Returned tt, w', evs) /\
    chain w' = chain w /\
    unconnectingHeaders (nodeState w' from) =
      unconnectingHeaders (nodeState w from) + Z.of_nat (length hs) /\
    List.filter is_misbehaving evs =
      repeat (EvMisbehaving from 20 "unconnecting-headers")
        (Z.to_nat ((unconnectingHeaders (nodeState w from) + Z.of_nat (length hs)) / 10
                   - unconnectingHeaders (nodeState w from) / 10)).
Proof.
  revert w. induction hs as [|h hs IH]; intros w Hall Hlo Hhi.
  - exists w, []. simpl. rewrite Z.add_0_r, Z.sub_diag.
    repeat split; reflexivity.
  - inversion Hall as [|? ? Hh Hrest]; subst.
    destruct (requestConnectHeaders_run h from true w Hh)
      as (w1 & Hrun & Hchain & Hcount & _).
    simpl length in *.
    rewrite wrap_int_small in Hrun, Hcount by (unfold INT_MIN, INT_MAX in *; lia).
    destruct (IH w1) as (w' & evs & Heach & Hchain' & Hcount' & Hrep).
    { rewrite Hchain. exact Hrest. }
    { rewrite Hcount. lia. }
    { rewrite Hcount. lia. }
    simpl. unfold mbind at 1, M_bind at 1. rewrite Hrun, Heach.
    eexists w', _. split; [reflexivity|].
    split; [congruence|]. split; [rewrite Hcount', Hcount; lia|].
    rewrite List.filter_app, Hrep, Hcount. simpl andb.
    set (c := unconnectingHeaders (nodeState w from)) in *.
    replace (c + 1 + Z.of_nat (length hs)) with (c + Z.of_nat (S (length hs))) by lia.
    assert (Hmono : (c + 1) / 10 <= (c + Z.of_nat (S (length hs))) / 10)
      by (apply Z.div_le_mono; lia).
    unfold MAX_UNCONNECTING_HEADERS.
    destruct (Z.eqb_spec (Z.rem (c + 1) 10) 0) as [Hrem|Hrem].
    + apply rem_10_divide in Hrem. destruct Hrem as [q Hq].
      assert (Hstep : (c + 1) / 10 = c / 10 + 1).
      { rewrite Hq, Z.div_mul by lia.
        replace c with (q * 10 - 1) by lia.
        symmetry. assert (Hd : (q * 10 - 1) / 10 = q - 1); [|lia].
        symmetry. apply Z.div_unique with (r := 9); lia. }
      simpl List.filter.
      replace (Z.to_nat ((c + Z.of_nat (S (length hs))) / 10 - c / 10))
        with (S (Z.to_nat ((c + Z.of_nat (S (length hs))) / 10 - (c + 1) / 10)))
        by lia.
      reflexivity.
    + assert (Hstep : (c + 1) / 10 = c / 10).
      { assert (Hm : (c + 1) mod 10 <> 0).
        { intros Hm. apply Hrem. apply rem_10_divide.
          apply Z.mod_divide; [lia|exact Hm]. }
        pose proof (Z.div_mod c 10 ltac:(lia)) as Hc.
        pose proof (Z.mod_pos_bound c 10 ltac:(lia)) as Hcb.
        pose proof (Z.div_mod (c + 1) 10 ltac:(lia)) as Hc1.
        pose proof (Z.mod_pos_bound (c + 1) 10 ltac:(lia)) as Hc1b.
        lia. }
      simpl List.filter. rewrite Hstep. reflexivity.
Qed.

End RequestConnectHeadersFacts.

(** C1 (as the code has it). For every header whose previous hash is not in
    the block tree, [requestConnectHeaders] returns true and sends exactly
    one message, a [getheaders] to the peer whose locator is built from
    [pindexBestHeader], the best header of this node, whatever the state of
    the peer. *)
Theorem requestConnectHeaders_locator `{env : Collaborators}
    (h : CBlockHeader) (from : NodeId) (bumpUnconnecting : bool) (w : World) :
  headerConnects (chain w) h = false ->
  exists w' evs,
    requestConnectHeaders h from bumpUnconnecting w = (Returned true, w', evs) /\
    pushed evs =
      [(from,
        GETHEADERS (GetLocator (chainActive (chain w)) (pindexBestHeader (chain w))) 0)].
Proof.
  intros Hconn.
  destruct (requestConnectHeaders_run h from bumpUnconnecting w Hconn)
    as (w' & Hrun & _).
  eexists w', _. split; [exact Hrun|].
  destruct (bumpUnconnecting && _); reflexivity.
Qed.

(** A header on an unknown block, from a peer known to have block 1, while
    the best header of this node is block 2. *)
Lemma requestConnectHeaders_locator_witness :
  exists w' evs,
    requestConnectHeaders (Ref_header 4242 9) 7 false
      (Ref_world_knowing (Ref.line 3 3) 1001) = (Returned true, w', evs) /\
    pushed evs = [(7, GETHEADERS (LocatorFor (Some 2%nat)) 0)].
Proof.
  refine (requestConnectHeaders_locator (Ref_header 4242 9) 7 false
            (Ref_world_knowing (Ref.line 3 3) 1001) _).
  reflexivity.
Defined.

(** C1 as stated fails: the peer is known to have block 1 before the call
    and the unknown header after it, and the locator sent is built from
    neither, but from block 2, the best header of this node. *)
Lemma requestConnectHeaders_locator_not_from_peer :
  headerConnects (Ref.line 3 3) (Ref_header 4242 9) = false /\
  exists w',
    requestConnectHeaders (Ref_header 4242 9) 7 false
      (Ref_world_knowing (Ref.line 3 3) 1001) =
      (Returned true, w',
       [EvUpdateBlockAvailability 7 1009;
        EvPushMessage 7 (GETHEADERS (LocatorFor (Some 2%nat)) 0)]) /\
    peerBestKnownHeader (Ref_world_knowing (Ref.line 3 3) 1001) 7 = Some 1%nat /\
    peerBestKnownHeader w' 7 = None /\
    GetLocator (chainActive (Ref.line 3 3))
      (peerBestKnownHeader (Ref_world_knowing (Ref.line 3 3) 1001) 7)
      <> LocatorFor (Some 2%nat) /\
    GetLocator (chainActive (Ref.line 3 3)) (peerBestKnownHeader w' 7)
      <> LocatorFor (Some 2%nat).
Proof.
  split; [reflexivity|]. eexists. split; [reflexivity|].
  split; [reflexivity|]. split; [reflexivity|]. split; discriminate.
Qed.

(** C9. For a peer whose counter [c] is an [int] with room to grow: each
    call of the handler with [bumpUnconnecting] set on a header that does not
    connect leaves the counter at [c + 1] and reports the peer, with 20
    points, exactly when [c + 1] is a multiple of 10; and ten such calls in a
    row make exactly one report. *)
Theorem requestConnectHeaders_every_tenth `{env : Collaborators}
    (from : NodeId) (w : World) :
  let c := unconnectingHeaders (nodeState w from) in
  INT_MIN <= c ->
  (forall h,
     c < INT_MAX ->
     headerConnects (chain w) h = false ->
     exists w' evs,
       requestConnectHeaders h from true w = (Returned true, w', evs) /\
       unconnectingHeaders (nodeState w' from) = c + 1 /\
       ((10 | c + 1) ->
        List.filter is_misbehaving evs = [EvMisbehaving from 20 "unconnecting-headers"]) /\
       (~ (10 | c + 1) -> List.filter is_misbehaving evs = [])) /\
  (forall hs,
     c + 10 <= INT_MAX ->
     length hs = 10%nat ->
     Forall (fun h => headerConnects (chain w) h = false) hs ->
     exists w' evs,
       requestConnectHeaders_each hs from true w = (Returned tt, w', evs) /\
       unconnectingHeaders (nodeState w' from) = c + 10 /\
       List.filter is_misbehaving evs = [EvMisbehaving from 20 "unconnecting-headers"]).
Proof.
  intros c Hlo. split.
  - intros h Hhi Hconn.
    destruct (requestConnectHeaders_run h from true w Hconn)
      as (w' & Hrun & _ & Hcount & _).
    fold c in Hrun, Hcount.
    rewrite wrap_int_small in Hrun, Hcount by (unfold INT_MIN, INT_MAX in *; lia).
    eexists w', _. split; [exact Hrun|]. split; [exact Hcount|].
    simpl andb. unfold MAX_UNCONNECTING_HEADERS.
    destruct (Z.eqb_spec (Z.rem (c + 1) 10) 0) as [Hrem|Hrem].
    + split; [reflexivity|]. intros Hn. destruct Hn. apply rem_10_divide, Hrem.
    + split; [|reflexivity]. intros Hd. destruct Hrem. apply rem_10_divide, Hd.
  - intros hs Hhi Hlen Hall.
    destruct (requestConnectHeaders_each_run hs from w Hall)
      as (w' & evs & Hrun & _ & Hcount & Hrep).
    { exact Hlo. }
    { fold c. rewrite Hlen. simpl. lia. }
    fold c in Hcount, Hrep. rewrite Hlen in Hcount, Hrep.
    exists w', evs. split; [exact Hrun|]. split; [exact Hcount|].
    rewrite Hrep.
    replace (c + Z.of_nat 10) with (c + 1 * 10) by lia.
    rewrite Z.div_add by lia.
    replace (c / 10 + 1 - c / 10) with 1 by lia. reflexivity.
Qed.

(** A fresh peer: the first unconnecting header makes no report, and ten of
    them make one. *)
Lemma requestConnectHeaders_every_tenth_witness :
  (exists w' evs,
     requestConnectHeaders (Ref_header 4242 9) 7 true (Ref_world (Ref.line 3 3) 0) =
       (Returned true, w', evs) /\
     unconnectingHeaders (nodeState w' 7) = 0 + 1 /\
     ((10 | 0 + 1) ->
      List.filter is_misbehaving evs = [EvMisbehaving 7 20 "unconnecting-headers"]) /\
     (~ (10 | 0 + 1) -> List.filter is_misbehaving evs = [])) /\
  (exists w' evs,
     requestConnectHeaders_each (repeat (Ref_header 4242 9) 10) 7 true
       (Ref_world (Ref.line 3 3) 0) = (Returned tt, w', evs) /\
     unconnectingHeaders (nodeState w' 7) = 0 + 10 /\
     List.filter is_misbehaving evs = [EvMisbehaving 7 20 "unconnecting-headers"]).
Proof.
  destruct (requestConnectHeaders_every_tenth 7 (Ref_world (Ref.line 3 3) 0))
    as [Hone Hten].
  - unfold INT_MIN. simpl. lia.
  - split.
    + apply (Hone (Ref_header 4242 9)); [unfold INT_MAX; simpl; lia|reflexivity].
    + apply (Hten (repeat (Ref_header 4242 9) 10));
        [unfold INT_MAX; simpl; lia|reflexivity|].
      simpl. repeat constructor.
Defined.

(** * Further properties *)

(** ** More on the missing-ancestor walk *)

Section WalkInvariants.
Context `{env : Collaborators}.
Variable cs : ChainState.
Variable blocksInFlight : list (Z * Z).

Local Abbreviation loop := (findMissingBlocks_loop cs blocksInFlight).
Local Abbreviation cap := MAX_BLOCKS_IN_TRANSIT_PER_PEER.

Lemma visit_length toFetch walk :
  (length toFetch <= cap)%nat -> (length (visit cs blocksInFlight toFetch walk) <= cap)%nat.
Proof.
  intros Hlen. unfold visit, push_trim.
  destruct (wanted cs blocksInFlight walk); [|exact Hlen].
  destruct (Nat.ltb_spec cap (length (toFetch ++ [walk]))) as [Hlt|Hge];
    [|exact Hge].
  rewrite length_app in Hlt. simpl in Hlt.
  destruct toFetch as [|x toFetch]; simpl in *; [lia|].
  rewrite length_app. simpl. lia.
Qed.

Lemma loop_length fuel walked walk toFetch l :
  (length toFetch <= cap)%nat ->
  loop fuel walked walk toFetch = Some l -> (length l <= cap)%nat.
Proof.
  revert walked walk toFetch.
  induction fuel as [|fuel IH]; intros walked walk toFetch Hlen; [discriminate|].
  rewrite loop_unfold.
  destruct (walked + 1 >? WALK_LIMIT).
  { intros H; inversion H; subst. simpl. lia. }
  destruct (Contains (chainActive cs) walk).
  { intros H; inversion H; subst. exact Hlen. }
  pose proof (visit_length toFetch walk Hlen) as Hv.
  destruct (pprev (blk cs walk)) as [p|].
  - apply IH. exact Hv.
  - intros H; inversion H; subst. exact Hv.
Qed.

(** What every entry of the window satisfies, for a walk that started at
    [last]. *)
Definition window_entry (last x : BlockPtr) : Prop :=
  wanted cs blocksInFlight x = true /\
  Contains (chainActive cs) x = false /\
  exists n, nth_ancestor cs n last = Some x.

Lemma loop_entries last fuel walked walk toFetch l :
  (exists m, nth_ancestor cs m last = Some walk) ->
  (forall x, x ∈ toFetch -> window_entry last x) ->
  loop fuel walked walk toFetch = Some l ->
  forall x, x ∈ l -> window_entry last x.
Proof.
  revert walked walk toFetch.
  induction fuel as [|fuel IH]; intros walked walk toFetch Hwalk Hall; [discriminate|].
  rewrite loop_unfold.
  destruct (walked + 1 >? WALK_LIMIT).
  { intros H; inversion H; subst. intros x Hx. apply elem_of_nil in Hx. destruct Hx. }
  destruct (Contains (chainActive cs) walk) eqn:Hcont.
  { intros H; inversion H; subst. exact Hall. }
  assert (Hv : forall x, x ∈ visit cs blocksInFlight toFetch walk -> window_entry last x).
  { unfold visit, push_trim. intros x.
    destruct (wanted cs blocksInFlight walk) eqn:Hw; [|apply Hall].
    assert (Hpush : x ∈ toFetch ++ [walk] -> window_entry last x).
    { intros Hx. apply elem_of_app in Hx as [Hx|Hx]; [apply Hall, Hx|].
      apply list_elem_of_singleton in Hx. subst x.
      split; [exact Hw|]. split; [exact Hcont|exact Hwalk]. }
    destruct (cap <? length (toFetch ++ [walk]))%nat; [|exact Hpush].
    intros Hx. apply Hpush, elem_of_tail, Hx. }
  destruct (pprev (blk cs walk)) as [p|] eqn:Hp.
  - apply IH; [|exact Hv]. destruct Hwalk as [m Hm].
    exists (S m). apply (nth_ancestor_step cs m last walk p Hm Hp).
  - intros H; inversion H; subst. exact Hv.
Qed.

(** The walk that runs off the root of the tree: the loop ends on the null
    [pprev] and keeps what it collected. *)
Lemma loop_root fuel walked walk gap r toFetch :
  gap_to cs walk gap r ->
  pprev (blk cs r) = None ->
  Forall (fun g => Contains (chainActive cs) g = false) (gap ++ [r]) ->
  walked + Z.of_nat (length gap) + 1 <= WALK_LIMIT ->
  (length gap < fuel)%nat ->
  loop fuel walked walk toFetch = Some (fold_left (visit cs blocksInFlight) (gap ++ [r]) toFetch).
Proof.
  intros Hgap Hr. revert fuel walked toFetch.
  induction Hgap as [a|p q gap a Hp Hgap IH];
    intros fuel walked toFetch Hout Hlim Hfuel;
    (destruct fuel as [|fuel]; [simpl in Hfuel; lia|]); rewrite loop_unfold;
    simpl length in *;
    (destruct (Z.gtb_spec (walked + 1) WALK_LIMIT); [lia|]);
    inversion Hout as [|? ? Hpout Hrest]; subst; rewrite Hpout.
  - rewrite Hr. reflexivity.
  - rewrite Hp. simpl. apply IH; [exact Hr|exact Hrest|lia|lia].
Qed.

End WalkInvariants.

(** X1. For every tip the window [findMissingBlocks] returns holds at most
    [MAX_BLOCKS_IN_TRANSIT_PER_PEER] entries. *)
Theorem findMissingBlocks_window_bounded `{env : Collaborators}
    (cs : ChainState) (blocksInFlight : list (Z * Z)) (last : BlockPtr) :
  exists l,
    findMissingBlocks cs blocksInFlight last = Some l /\
    (length l <= MAX_BLOCKS_IN_TRANSIT_PER_PEER)%nat.
Proof.
  destruct (findMissingBlocks_total cs blocksInFlight last) as [l Hl].
  exists l. split; [exact Hl|].
  eapply loop_length; [|exact Hl]. simpl. lia.
Qed.

(** X2. Every entry of the window is an ancestor of the tip (or the tip
    itself) that has no block data, is not in flight and is not on the active
    chain. *)
Theorem findMissingBlocks_entries_wanted `{env : Collaborators}
    (cs : ChainState) (blocksInFlight : list (Z * Z)) (last : BlockPtr) :
  exists l,
    findMissingBlocks cs blocksInFlight last = Some l /\
    forall x, x ∈ l ->
      Z.land (nStatus (blk cs x)) BLOCK_HAVE_DATA = 0 /\
      isInFlight blocksInFlight (GetBlockHash (blk cs x)) = false /\
      Contains (chainActive cs) x = false /\
      exists n, nth_ancestor cs n last = Some x.
Proof.
  destruct (findMissingBlocks_total cs blocksInFlight last) as [l Hl].
  exists l. split; [exact Hl|]. intros x Hx.
  assert (Hentry : window_entry cs blocksInFlight last x).
  { eapply loop_entries; [| |exact Hl|exact Hx].
    - exists 0%nat. reflexivity.
    - intros y Hy. apply elem_of_nil in Hy. destruct Hy. }
  destruct Hentry as (Hw & Hc & Ha).
  unfold wanted in Hw. apply andb_true_iff in Hw as [Hdata Hfl].
  apply Z.eqb_eq in Hdata. apply negb_true_iff in Hfl. auto.
Qed.

(** X3. When [WALK_LIMIT] or more blocks lie between the tip and the active
    chain, the walk gives up and returns the empty window, whatever it had
    collected. *)
Theorem findMissingBlocks_depth_limit `{env : Collaborators}
    (cs : ChainState) (blocksInFlight : list (Z * Z))
    (tip : BlockPtr) (gap : list BlockPtr) (a : BlockPtr) :
  gap_to cs tip gap a ->
  Forall (fun g => Contains (chainActive cs) g = false) gap ->
  (Z.to_nat WALK_LIMIT <= length gap)%nat ->
  findMissingBlocks cs blocksInFlight tip = Some [].
Proof.
  intros Hgap Hout Hlen. unfold findMissingBlocks.
  apply (loop_too_far cs blocksInFlight _ 0 tip gap a []); try assumption;
    unfold WALK_LIMIT in *; lia.
Qed.

(** 144 wanted blocks above the genesis block: one too many. *)
Lemma findMissingBlocks_depth_limit_witness :
  findMissingBlocks (Ref.line 145 1) [] 144 = Some [].
Proof.
  refine (findMissingBlocks_depth_limit (Ref.line 145 1) [] 144%nat
            (rev (seq 1 144)) 0%nat _ _ _).
  - simpl. repeat (econstructor; [reflexivity|]). constructor.
  - simpl. repeat constructor.
  - vm_compute. lia.
Defined.

(** X4. When the walk reaches the active chain in time, the window is the
    last [MAX_BLOCKS_IN_TRANSIT_PER_PEER] of the wanted blocks on the way, in
    walk order, and no block occurs twice in it; when no more than that many
    are wanted, the window is all of them. *)
Theorem findMissingBlocks_reaches_chain `{env : Collaborators}
    (cs : ChainState) (blocksInFlight : list (Z * Z))
    (tip : BlockPtr) (gap : list BlockPtr) (a : BlockPtr) :
  gap_to cs tip gap a ->
  Contains (chainActive cs) a = true ->
  Forall (fun g => Contains (chainActive cs) g = false) gap ->
  (length gap < Z.to_nat WALK_LIMIT)%nat ->
  let missing := List.filter (wanted cs blocksInFlight) gap in
  exists window,
    findMissingBlocks cs blocksInFlight tip = Some window /\
    window = drop (length missing - MAX_BLOCKS_IN_TRANSIT_PER_PEER) missing /\
    ((length missing <= MAX_BLOCKS_IN_TRANSIT_PER_PEER)%nat -> window = missing) /\
    NoDup window.
Proof.
  intros Hgap Ha Hout Hlen missing.
  exists (lastn MAX_BLOCKS_IN_TRANSIT_PER_PEER missing).
  split; [|split; [reflexivity|split]].
  - unfold findMissingBlocks.
    rewrite (loop_reaches cs blocksInFlight _ 0 tip gap a []);
      [|assumption|assumption|assumption|unfold WALK_LIMIT in *; lia|lia].
    f_equal. apply (fold_visit_lastn cs blocksInFlight gap []).
  - intros HK. unfold lastn.
    replace (length missing - MAX_BLOCKS_IN_TRANSIT_PER_PEER)%nat with 0%nat by lia.
    reflexivity.
  - unfold lastn. eapply sublist_NoDup; [|apply sublist_drop].
    apply NoDup_ListNoDup. apply List.NoDup_filter. apply NoDup_ListNoDup.
    eapply gap_to_NoDup; eassumption.
Qed.

(** Three blocks above the genesis block, the middle one in flight. *)
Lemma findMissingBlocks_reaches_chain_witness :
  exists window,
    findMissingBlocks (Ref.line 4 1) [(7, 1002)] 3 = Some window /\
    window = [3; 1]%nat /\
    ((2 <= 16)%nat -> window = [3; 1]%nat) /\
    NoDup window.
Proof.
  refine (findMissingBlocks_reaches_chain (Ref.line 4 1) [(7, 1002)] 3%nat
            [3; 2; 1]%nat 0%nat _ _ _ _).
  - repeat (econstructor; [reflexivity|]). constructor.
  - reflexivity.
  - repeat constructor.
  - vm_compute. lia.
Defined.

(** X5. When the walk runs off the root of the tree without meeting the
    active chain (the last block it visits has no [pprev]), it still returns
    what it collected: the last [MAX_BLOCKS_IN_TRANSIT_PER_PEER] of the
    wanted blocks down to and including the root. *)
Theorem findMissingBlocks_off_the_root `{env : Collaborators}
    (cs : ChainState) (blocksInFlight : list (Z * Z))
    (tip : BlockPtr) (gap : list BlockPtr) (r : BlockPtr) :
  gap_to cs tip gap r ->
  pprev (blk cs r) = None ->
  Forall (fun g => Contains (chainActive cs) g = false) (gap ++ [r]) ->
  (length gap < Z.to_nat WALK_LIMIT)%nat ->
  let missing := List.filter (wanted cs blocksInFlight) (gap ++ [r]) in
  findMissingBlocks cs blocksInFlight tip =
  Some (drop (length missing - MAX_BLOCKS_IN_TRANSIT_PER_PEER) missing).
Proof.
  intros Hgap Hr Hout Hlen missing. unfold findMissingBlocks.
  rewrite (loop_root cs blocksInFlight _ 0 tip gap r []);
    [|assumption|assumption|assumption|unfold WALK_LIMIT in *; lia|lia].
  f_equal. apply (fold_visit_lastn cs blocksInFlight (gap ++ [r]) []).
Qed.

(** A line of three blocks with an empty active chain. *)
Lemma findMissingBlocks_off_the_root_witness :
  findMissingBlocks (Ref.line 3 0) [] 2 = Some [2; 1; 0]%nat.
Proof.
  refine (findMissingBlocks_off_the_root (Ref.line 3 0) [] 2%nat [2; 1]%nat 0%nat
            _ _ _ _).
  - repeat (econstructor; [reflexivity|]). constructor.
  - reflexivity.
  - repeat constructor.
  - vm_compute. lia.
Defined.

(** ** More on header acceptance *)

Section AcceptHeadersFrame.
Context `{env : Collaborators}.
Variable pfrom : NodeId.

Lemma acceptHeaders_loop_frame headers p w :
  exists r cs evs,
    acceptHeaders_loop pfrom headers p w = (r, with_chain cs w, evs) /\
    match r with
    | Returned _ => evs = []
    | Thrown _ =>
      evs = [] \/ exists n reason, 0 < n /\ evs = [EvMisbehaving pfrom n reason]
    | Stuck _ => False
    end.
Proof.
  revert p w. induction headers as [|h headers IH]; intros p w.
  - exists (Returned p), (chain w), []. split; [|reflexivity].
    destruct w; reflexivity.
  - simpl.
    destruct (match p with
              | Some p0 => negb (hashPrevBlock h =? GetBlockHash (blk (chain w) p0))
              | None => false
              end).
    { eexists (Thrown _), (chain w), _. split; [destruct w; reflexivity|].
      right. exists 20, "non-continuous header sequence"%string.
      split; [lia|reflexivity]. }
    destruct (AcceptBlockHeader h p (chain w)) as [[[ok st] p'] cs].
    assert (Hnext : exists r cs0 evs,
               acceptHeaders_loop pfrom headers p' (with_chain cs w)
               = (r, with_chain cs0 w, evs) /\
               match r with
               | Returned _ => evs = []
               | Thrown _ =>
                 evs = [] \/
                 exists n reason, 0 < n /\ evs = [EvMisbehaving pfrom n reason]
               | Stuck _ => False
               end).
    { destruct (IH p' (with_chain cs w)) as (r & cs0 & evs & Hrun & Hev).
      exists r, cs0, evs. split; [exact Hrun|exact Hev]. }
    destruct ok; simpl; [exact Hnext|].
    destruct (IsInvalid st) as [n|]; [|exact Hnext].
    destruct (Z.ltb_spec 0 n) as [Hpos|Hle].
    + eexists (Thrown _), cs, _. split; [reflexivity|].
      right. exists n, "invalid header"%string. split; [exact Hpos|reflexivity].
    + eexists (Thrown _), cs, _. split; [reflexivity|]. left. reflexivity.
Qed.

End AcceptHeadersFrame.

(** X6. Whatever the batch, [acceptHeaders] changes nothing but the chain
    state (the peer records, the in-flight index and the admission state
    are as before); it makes no call when it returns, and when it throws it
    has made at most one call, a report of the peer of the processor with a
    positive number of points. *)
Theorem acceptHeaders_frame `{env : Collaborators}
    (pfrom : NodeId) (headers : list CBlockHeader) (w : World) :
  exists r cs evs,
    acceptHeaders pfrom headers w = (r, with_chain cs w, evs) /\
    match r with
    | Returned _ => evs = []
    | Thrown _ =>
      evs = [] \/ exists n reason, 0 < n /\ evs = [EvMisbehaving pfrom n reason]
    | Stuck _ => False
    end.
Proof. apply acceptHeaders_loop_frame. Qed.

(** ** More on the entry point *)

(** The [getheaders] messages pushed, each with the peer it goes to. *)
Definition getheaders_sent (evs : list Event) : list (Z * CBlockLocator) :=
  omap (fun e => match e with
                 | EvPushMessage to (GETHEADERS l _) => Some (to, l)
                 | _ => None
                 end) evs.

Lemma getheaders_suggest_events pfrom k hs :
  getheaders_sent (suggest_events pfrom k hs) = [].
Proof.
  revert k. induction hs as [|h hs IH]; intros [|k]; try reflexivity.
  rewrite suggest_events_cons. simpl. apply IH.
Qed.

Lemma fetch_stage_suggest_events pfrom k hs :
  List.filter (fun e => negb (is_fetch_stage e)) (suggest_events pfrom k hs) = [].
Proof.
  revert k. induction hs as [|h hs IH]; intros [|k]; try reflexivity.
  rewrite suggest_events_cons. simpl. apply IH.
Qed.

Section AfterAccept.
Context `{env : Collaborators}.
Variable pfrom : NodeId.

(** The calls of the fetch stage of one invocation on the node [p], in the
    world [w]: none, or the walk and the suggestion of its window, of which
    the first [k] hashes were admitted. *)
Definition fetch_calls (maybeAnnouncement : bool) (p : BlockPtr) (w : World)
    (fetch : list Event) : Prop :=
  fetch = [] \/
  maybeAnnouncement = true /\
  exists toFetch k,
    findMissingBlocks (chain w) (inFlight w) p = Some toFetch /\
    (k <= length toFetch)%nat /\
    fetch =
      EvFindMissingBlocks p :: EvSuggestDownload toFetch p
      :: suggest_events pfrom k
           (map (fun b => GetBlockHash (blk (chain w) b)) (rev toFetch))
         ++ match k with
            | O => []
            | S _ =>
              [EvPushMessage pfrom
                 (GETDATA
                    (map (CInv_of MSG_BLOCK)
                       (take k (map (fun b => GetBlockHash (blk (chain w) b))
                                  (rev toFetch)))))]
            end.

(** The fetch stage of [operator()] on the node [acceptHeaders] returned. *)
Definition fetch_part (maybeAnnouncement : bool) (p : BlockPtr) : M unit :=
  if maybeAnnouncement then
    ok ← hasEqualOrMoreWork p;
    if (ok : bool) then
      toFetch ← findMissingBlocksM p;
      suggestDownload pfrom toFetch p
    else mret tt
  else mret tt.

Lemma fetch_part_run maybeAnnouncement p w :
  exists r w' fetch,
    fetch_part maybeAnnouncement p w = (r, w', fetch) /\
    (r = Returned tt \/ r = Stuck NullDereference) /\
    fetch_calls maybeAnnouncement p w fetch /\
    chain w' = chain w /\
    nodeState w' = nodeState w.
Proof.
  unfold fetch_part. destruct maybeAnnouncement.
  2: { exists (Returned tt), w, []. repeat split; auto. left; reflexivity. }
  unfold mbind, M_bind, hasEqualOrMoreWork.
  destruct (IsValid (blk (chain w) p) BLOCK_VALID_TREE); simpl.
  2: { exists (Returned tt), w, []. repeat split; auto. left; reflexivity. }
  destruct (Tip (chainActive (chain w))) as [tip|].
  2: { exists (Stuck NullDereference), w, []. repeat split; auto. left; reflexivity. }
  destruct (nChainWork (blk (chain w) tip) <=? nChainWork (blk (chain w) p)).
  2: { exists (Returned tt), w, []. repeat split; auto. left; reflexivity. }
  unfold findMissingBlocksM.
  destruct (findMissingBlocks_total (chain w) (inFlight w) p) as [toFetch Hwin].
  rewrite Hwin.
  destruct (suggestDownload_run pfrom toFetch p w)
    as (k & w' & Hrun & Hk & Hchain & Hns & _).
  rewrite Hrun. eexists (Returned tt), w', _. split; [reflexivity|].
  split; [left; reflexivity|]. split; [|split; assumption].
  right. split; [reflexivity|]. exists toFetch, k.
  split; [exact Hwin|]. split; [exact Hk|]. reflexivity.
Qed.

Lemma after_accept_some_eq peerSentMax maybeAnnouncement p :
  after_accept pfrom peerSentMax maybeAnnouncement (Some p) =
  (set_unconnectingHeaders pfrom 0;;
   (fun w => UpdateBlockAvailability pfrom (GetBlockHash (blk (chain w) p)) w);;
   (if peerSentMax
    then fun w =>
      PushMessage pfrom (GETHEADERS (GetLocator (chainActive (chain w)) (Some p)) 0) w
    else mret tt);;
   fetch_part maybeAnnouncement p;;
   checkBlockIndex;;
   mret (Some p)).
Proof. reflexivity. Qed.

(** Everything [operator()] does after [acceptHeaders] returned a node. *)
Lemma after_accept_some peerSentMax maybeAnnouncement p w :
  exists r w' fetch,
    after_accept pfrom peerSentMax maybeAnnouncement (Some p) w =
      (r, w',
       [EvUpdateBlockAvailability pfrom (GetBlockHash (blk (chain w) p))]
       ++ (if peerSentMax
           then [EvPushMessage pfrom (GETHEADERS (LocatorFor (Some p)) 0)]
           else [])
       ++ fetch
       ++ match r with Returned _ => [EvCheckBlockIndex] | _ => [] end) /\
    (r = Returned (Some p) \/ r = Stuck NullDereference) /\
    fetch_calls maybeAnnouncement p w fetch /\
    chain w' = chain w /\
    unconnectingHeaders (nodeState w' pfrom) = 0 /\
    bestKnownHeader (nodeState w' pfrom) = Some (GetBlockHash (blk (chain w) p)) /\
    forall id, id <> pfrom -> nodeState w' id = nodeState w id.
Proof.
  rewrite after_accept_some_eq.
  pose (ns1 := <[pfrom := {| unconnectingHeaders := 0;
                             bestKnownHeader := bestKnownHeader (nodeState w pfrom) |}]>
                 (nodeState w)).
  pose (ns2 := <[pfrom := {| unconnectingHeaders := unconnectingHeaders (ns1 pfrom);
                             bestKnownHeader :=
                               Some (GetBlockHash (blk (chain w) p)) |}]> ns1).
  pose (w2 := with_nodeState ns2 (with_nodeState ns1 w)).
  destruct (fetch_part_run maybeAnnouncement p w2)
    as (r & w' & fetch & Hrun & Hr & Hfetch & Hchain & Hns).
  assert (Hstate : unconnectingHeaders (nodeState w' pfrom) = 0 /\
                   bestKnownHeader (nodeState w' pfrom)
                     = Some (GetBlockHash (blk (chain w) p)) /\
                   forall id, id <> pfrom -> nodeState w' id = nodeState w id).
  { rewrite Hns. unfold w2, ns2, ns1. simpl nodeState.
    rewrite !fn_lookup_insert. repeat split.
    intros id Hid. rewrite !fn_lookup_insert_ne by congruence. reflexivity. }
  assert (Hstep : forall (push : M unit) evp,
             push w2 = (Returned tt, w2, evp) ->
             (set_unconnectingHeaders pfrom 0;;
              (fun w0 =>
                 UpdateBlockAvailability pfrom (GetBlockHash (blk (chain w0) p)) w0);;
              push;; fetch_part maybeAnnouncement p;; checkBlockIndex;;
              mret (Some p)) w =
             (match r with
              | Returned _ => Returned (Some p)
              | Thrown e => Thrown e
              | Stuck f => Stuck f
              end, w',
              [EvUpdateBlockAvailability pfrom (GetBlockHash (blk (chain w) p))]
              ++ evp ++ fetch
              ++ match r with Returned _ => [EvCheckBlockIndex] | _ => [] end)).
  { intros push evp Hpush.
    unfold mbind, M_bind, set_unconnectingHeaders, UpdateBlockAvailability.
    fold ns1. change (chain (with_nodeState ns1 w)) with (chain w).
    change (nodeState (with_nodeState ns1 w)) with ns1.
    fold ns2. fold w2. rewrite Hpush, Hrun.
    destruct Hr as [-> | ->]; simpl; rewrite ?app_nil_r; reflexivity. }
  exists (match r with
          | Returned _ => Returned (Some p)
          | Thrown e => Thrown e
          | Stuck f => Stuck f
          end), w', fetch.
  split.
  - destruct peerSentMax.
    + rewrite (Hstep _ [EvPushMessage pfrom (GETHEADERS (LocatorFor (Some p)) 0)])
        by reflexivity.
      destruct Hr as [-> | ->]; reflexivity.
    + rewrite (Hstep _ []) by reflexivity.
      destruct Hr as [-> | ->]; reflexivity.
  - split; [destruct Hr as [-> | ->]; [left|right]; reflexivity|].
    split; [exact Hfetch|]. split; [rewrite Hchain; reflexivity|exact Hstate].
Qed.

(** Everything [operator()] does after [acceptHeaders] returned no node. *)
Lemma after_accept_none peerSentMax maybeAnnouncement w :
  after_accept pfrom peerSentMax maybeAnnouncement None w =
  (Returned None,
   with_nodeState
     (<[pfrom := {| unconnectingHeaders := 0;
                    bestKnownHeader := bestKnownHeader (nodeState w pfrom) |}]>
        (nodeState w)) w,
   [EvCheckBlockIndex]).
Proof. reflexivity. Qed.

End AfterAccept.

Section OperatorRuns.
Context `{env : Collaborators}.
Variable pfrom : NodeId.

(** An invocation that returns went through [acceptHeaders] without a call
    and then through the rest of [operator()]. *)
Lemma operator_call_returned headers peerSentMax maybeAnnouncement w r w' evs :
  operator_call pfrom headers peerSentMax maybeAnnouncement w = (Returned r, w', evs) ->
  exists cs pl,
    acceptHeaders pfrom headers w = (Returned pl, with_chain cs w, []) /\
    after_accept pfrom peerSentMax maybeAnnouncement pl (with_chain cs w)
      = (Returned r, w', evs).
Proof.
  rewrite operator_call_after_accept. unfold mbind, M_bind.
  destruct (acceptHeaders_loop_frame pfrom headers None w)
    as (r0 & cs & evs0 & Hacc & Hev).
  fold (acceptHeaders pfrom headers) in Hacc. rewrite Hacc.
  destruct r0 as [pl|e|f]; [|discriminate|destruct Hev].
  subst evs0.
  destruct (after_accept pfrom peerSentMax maybeAnnouncement pl (with_chain cs w))
    as [[r1 w1] ev1] eqn:Hrest.
  simpl. intros H. inversion H; subst. exists cs, pl.
  split; [reflexivity|exact Hrest].
Qed.

(** The calls of an invocation whose [acceptHeaders] throws or gets stuck
    are those of [acceptHeaders]. *)
Lemma operator_call_not_returned headers peerSentMax maybeAnnouncement w r w1 ev1 :
  acceptHeaders pfrom headers w = (r, w1, ev1) ->
  (forall pl, r <> Returned pl) ->
  snd (operator_call pfrom headers peerSentMax maybeAnnouncement w) = ev1.
Proof.
  intros Hacc Hr. rewrite operator_call_after_accept. unfold mbind, M_bind.
  rewrite Hacc. destruct r as [pl|e|f]; [destruct (Hr pl); reflexivity| |];
    reflexivity.
Qed.

Lemma fetch_calls_getheaders maybeAnnouncement p w fetch :
  fetch_calls pfrom maybeAnnouncement p w fetch -> getheaders_sent fetch = [].
Proof.
  intros [->|(_ & toFetch & k & _ & _ & ->)]; [reflexivity|].
  unfold getheaders_sent. simpl. rewrite omap_app.
  fold (getheaders_sent (suggest_events pfrom k
          (map (fun b => GetBlockHash (blk (chain w) b)) (rev toFetch)))).
  rewrite getheaders_suggest_events. destruct k; reflexivity.
Qed.

Lemma fetch_calls_getdata maybeAnnouncement p w fetch :
  fetch_calls pfrom maybeAnnouncement p w fetch ->
  getdata_sent fetch = [] \/
  exists vInv,
    getdata_sent fetch = [(pfrom, vInv)] /\
    (0 < length vInv <= MAX_BLOCKS_IN_TRANSIT_PER_PEER)%nat.
Proof.
  intros [->|(_ & toFetch & k & Hwin & Hk & ->)]; [left; reflexivity|].
  unfold getdata_sent. simpl. rewrite omap_app.
  fold (getdata_sent (suggest_events pfrom k
          (map (fun b => GetBlockHash (blk (chain w) b)) (rev toFetch)))).
  rewrite getdata_suggest_events.
  destruct k as [|k]; [left; reflexivity|]. right.
  eexists. split; [reflexivity|].
  rewrite length_map, length_take, length_map, length_rev.
  assert (Hcap : (length toFetch <= MAX_BLOCKS_IN_TRANSIT_PER_PEER)%nat).
  { eapply loop_length; [|exact Hwin]. simpl. lia. }
  lia.
Qed.

Lemma fetch_calls_only_fetch maybeAnnouncement p w fetch :
  fetch_calls pfrom maybeAnnouncement p w fetch ->
  List.filter (fun e => negb (is_fetch_stage e)) fetch = [].
Proof.
  intros [->|(_ & toFetch & k & _ & _ & ->)]; [reflexivity|].
  simpl. rewrite List.filter_app, fetch_stage_suggest_events.
  destruct k; reflexivity.
Qed.

End OperatorRuns.

(** X7. When [acceptHeaders] returns no node (as it does on an empty batch),
    the entry point returns none, whatever the two flags: it resets the
    unconnecting counter of the peer, updates no availability, sends
    nothing, fetches nothing, and calls [checkBlockIndex]. *)
Theorem operator_call_no_node `{env : Collaborators}
    (pfrom : NodeId) (headers : list CBlockHeader)
    (peerSentMax maybeAnnouncement : bool) (w w1 : World) (evs1 : list Event) :
  acceptHeaders pfrom headers w = (Returned None, w1, evs1) ->
  operator_call pfrom headers peerSentMax maybeAnnouncement w =
  (Returned None,
   with_nodeState
     (<[pfrom := {| unconnectingHeaders := 0;
                    bestKnownHeader := bestKnownHeader (nodeState w1 pfrom) |}]>
        (nodeState w1)) w1,
   [EvCheckBlockIndex]).
Proof.
  intros Hacc.
  destruct (acceptHeaders_loop_returned pfrom headers None w _ _ _ Hacc) as [-> _].
  rewrite operator_call_after_accept. unfold mbind, M_bind.
  rewrite Hacc, after_accept_none. reflexivity.
Qed.

(** The empty batch, full and possibly an announcement. *)
Lemma operator_call_no_node_witness :
  operator_call 7 [] true true (Ref_world (Ref.line 3 3) 10) =
  (Returned None,
   with_nodeState
     (<[7 := {| unconnectingHeaders := 0; bestKnownHeader := None |}]>
        (fun _ => Ref.peer0)) (Ref_world (Ref.line 3 3) 10),
   [EvCheckBlockIndex]).
Proof.
  refine (operator_call_no_node 7 [] true true (Ref_world (Ref.line 3 3) 10)
            (Ref_world (Ref.line 3 3) 10) [] _).
  reflexivity.
Defined.

(** X8. When the entry point returns, the unconnecting counter of its peer is
    zero, the best known header of the peer is the hash of the node returned
    (unchanged when no node is returned), and the record of every other peer
    is as before. *)
Theorem operator_call_peer_state `{env : Collaborators}
    (pfrom : NodeId) (headers : list CBlockHeader)
    (peerSentMax maybeAnnouncement : bool) (w w' : World)
    (r : option BlockPtr) (evs : list Event) :
  operator_call pfrom headers peerSentMax maybeAnnouncement w = (Returned r, w', evs) ->
  unconnectingHeaders (nodeState w' pfrom) = 0 /\
  bestKnownHeader (nodeState w' pfrom) =
    match r with
    | Some p => Some (GetBlockHash (blk (chain w') p))
    | None => bestKnownHeader (nodeState w pfrom)
    end /\
  forall id, id <> pfrom -> nodeState w' id = nodeState w id.
Proof.
  intros Hrun.
  destruct (operator_call_returned pfrom headers _ _ w r w' evs Hrun)
    as (cs & pl & _ & Hrest).
  destruct pl as [p|].
  - destruct (after_accept_some pfrom peerSentMax maybeAnnouncement p (with_chain cs w))
      as (r1 & w1 & fetch & Hrest' & Hr & _ & Hchain & Hcount & Hbest & Hother).
    rewrite Hrest in Hrest'. inversion Hrest'; subst.
    destruct Hr as [Hr|Hr]; [|discriminate]. inversion Hr; subst.
    rewrite Hchain. auto.
  - rewrite after_accept_none in Hrest. inversion Hrest; subst. simpl.
    rewrite fn_lookup_insert. repeat split.
    intros id Hid. rewrite fn_lookup_insert_ne by congruence. reflexivity.
Qed.

(** A peer with a counter of 7 and a known header sends two new headers. *)
Lemma operator_call_peer_state_witness :
  let w := with_nodeState
             (fun _ => {| unconnectingHeaders := 7; bestKnownHeader := Some 1000 |})
             (Ref_world (Ref.line 3 3) 10) in
  let run := operator_call 7 [Ref_header 1002 3; Ref_header 1003 4] false true w in
  unconnectingHeaders (nodeState (snd (fst run)) 7) = 0 /\
  bestKnownHeader (nodeState (snd (fst run)) 7) =
    Some (GetBlockHash (blk (chain (snd (fst run))) 4)) /\
  forall id, id <> 7 -> nodeState (snd (fst run)) id = nodeState w id.
Proof.
  intros w run.
  refine (operator_call_peer_state 7 [Ref_header 1002 3; Ref_header 1003 4] false true
            w (snd (fst run)) (Some 4%nat) (snd run) _).
  reflexivity.
Defined.

(** X9. When the entry point returns, it has sent a [getheaders] exactly if
    the batch was full ([peerSentMax]) and a node was accepted; the message
    goes to the peer of the processor and its locator is built from the last
    accepted node. *)
Theorem operator_call_continuation `{env : Collaborators}
    (pfrom : NodeId) (headers : list CBlockHeader)
    (peerSentMax maybeAnnouncement : bool) (w w' : World)
    (r : option BlockPtr) (evs : list Event) :
  operator_call pfrom headers peerSentMax maybeAnnouncement w = (Returned r, w', evs) ->
  getheaders_sent evs =
    match r with
    | Some p => if peerSentMax then [(pfrom, LocatorFor (Some p))] else []
    | None => []
    end.
Proof.
  intros Hrun.
  destruct (operator_call_returned pfrom headers _ _ w r w' evs Hrun)
    as (cs & pl & _ & Hrest).
  destruct pl as [p|].
  - destruct (after_accept_some pfrom peerSentMax maybeAnnouncement p (with_chain cs w))
      as (r1 & w1 & fetch & Hrest' & Hr & Hfetch & _).
    rewrite Hrest in Hrest'. inversion Hrest'; subst.
    destruct Hr as [Hr|Hr]; [|discriminate]. inversion Hr; subst.
    pose proof (fetch_calls_getheaders pfrom _ _ _ _ Hfetch) as Hnone.
    unfold getheaders_sent in *. simpl. rewrite !omap_app, Hnone.
    destruct peerSentMax; reflexivity.
  - rewrite after_accept_none in Hrest. inversion Hrest; subst. reflexivity.
Qed.

(** Two new headers in a full batch. *)
Lemma operator_call_continuation_witness :
  let run := operator_call 7 [Ref_header 1002 3; Ref_header 1003 4] true true
               (Ref_world (Ref.line 3 3) 10) in
  getheaders_sent (snd run) = [(7, LocatorFor (Some 4%nat))].
Proof.
  intros run.
  refine (operator_call_continuation 7 [Ref_header 1002 3; Ref_header 1003 4] true true
            (Ref_world (Ref.line 3 3) 10) (snd (fst run)) (Some 4%nat) (snd run) _).
  reflexivity.
Defined.

(** X10. With [maybeAnnouncement] false the entry point never enters the
    fetch stage: no walk, no suggestion, no admission decision, no block
    marked in flight and no [getdata], however the invocation ends. *)
Theorem operator_call_no_announcement `{env : Collaborators}
    (pfrom : NodeId) (headers : list CBlockHeader) (peerSentMax : bool) (w : World) :
  List.filter is_fetch_stage (snd (operator_call pfrom headers peerSentMax false w)) = [].
Proof.
  destruct (acceptHeaders_loop_frame pfrom headers None w)
    as (r0 & cs & evs0 & Hacc & Hev).
  fold (acceptHeaders pfrom headers) in Hacc.
  destruct r0 as [pl|e|f]; [| |destruct Hev].
  - subst evs0. rewrite operator_call_after_accept. unfold mbind, M_bind.
    rewrite Hacc. destruct pl as [p|].
    + destruct (after_accept_some pfrom peerSentMax false p (with_chain cs w))
        as (r1 & w1 & fetch & Hrest & Hr & Hfetch & _).
      rewrite Hrest.
      destruct Hfetch as [->|[Hma _]]; [|discriminate].
      destruct Hr as [-> | ->]; destruct peerSentMax; reflexivity.
    + rewrite after_accept_none. reflexivity.
  - rewrite (operator_call_not_returned pfrom headers peerSentMax false w
               _ _ _ Hacc) by discriminate.
    destruct Hev as [->|(n & reason & _ & ->)]; reflexivity.
Qed.

(** X11. However the invocation ends, the entry point sends at most one
    [getdata]; it goes to the peer of the processor and asks for at least one
    and at most [MAX_BLOCKS_IN_TRANSIT_PER_PEER] blocks. *)
Theorem operator_call_getdata_bounded `{env : Collaborators}
    (pfrom : NodeId) (headers : list CBlockHeader)
    (peerSentMax maybeAnnouncement : bool) (w : World) :
  let evs := snd (operator_call pfrom headers peerSentMax maybeAnnouncement w) in
  getdata_sent evs = [] \/
  exists vInv,
    getdata_sent evs = [(pfrom, vInv)] /\
    (0 < length vInv <= MAX_BLOCKS_IN_TRANSIT_PER_PEER)%nat.
Proof.
  intros evs. subst evs.
  destruct (acceptHeaders_loop_frame pfrom headers None w)
    as (r0 & cs & evs0 & Hacc & Hev).
  fold (acceptHeaders pfrom headers) in Hacc.
  destruct r0 as [pl|e|f]; [| |destruct Hev].
  - subst evs0. rewrite operator_call_after_accept. unfold mbind, M_bind.
    rewrite Hacc. destruct pl as [p|].
    + destruct (after_accept_some pfrom peerSentMax maybeAnnouncement p
                  (with_chain cs w))
        as (r1 & w1 & fetch & Hrest & Hr & Hfetch & _).
      rewrite Hrest.
      pose proof (fetch_calls_getdata pfrom _ _ _ _ Hfetch) as Hdata.
      simpl. unfold getdata_sent in *. simpl. rewrite !omap_app.
      destruct Hr as [-> | ->]; destruct peerSentMax; simpl;
        rewrite ?app_nil_r; exact Hdata.
    + rewrite after_accept_none. left. reflexivity.
  - rewrite (operator_call_not_returned pfrom headers peerSentMax maybeAnnouncement w
               _ _ _ Hacc) by discriminate.
    left. destruct Hev as [->|(n & reason & _ & ->)]; reflexivity.
Qed.

(** ** More on unconnecting headers *)

(** X12. [requestConnectHeaders] returns true exactly when the previous
    block of the header is not in the block tree. It never changes the chain
    state, the in-flight index, the admission state or the record of another
    peer, and for a header that connects it changes nothing and makes no
    call. *)
Theorem requestConnectHeaders_frame `{env : Collaborators}
    (h : CBlockHeader) (from : NodeId) (bumpUnconnecting : bool) (w : World) :
  exists w' evs,
    requestConnectHeaders h from bumpUnconnecting w =
      (Returned (negb (headerConnects (chain w) h)), w', evs) /\
    chain w' = chain w /\
    inFlight w' = inFlight w /\
    thin w' = thin w /\
    (forall id, id <> from -> nodeState w' id = nodeState w id) /\
    (headerConnects (chain w) h = true -> w' = w /\ evs = []).
Proof.
  unfold requestConnectHeaders, mbind, M_bind, UpdateBlockAvailability, PushMessage,
    emit, incr_unconnectingHeaders, Misbehaving.
  destruct (headerConnects (chain w) h).
  - exists w, []. repeat split; reflexivity.
  - destruct bumpUnconnecting; simpl.
    + destruct (Z.rem _ MAX_UNCONNECTING_HEADERS =? 0); simpl;
        (eexists _, _; split; [reflexivity|]); simpl;
        (repeat split; try reflexivity; try discriminate);
        intros id Hid; rewrite !fn_lookup_insert_ne by congruence; reflexivity.
    + eexists _, _. split; [reflexivity|]. simpl.
      repeat split; try reflexivity; try discriminate.
      intros id Hid. rewrite !fn_lookup_insert_ne by congruence. reflexivity.
Qed.

Section NoBump.
Context `{env : Collaborators}.

Lemma requestConnectHeaders_each_no_bump hs from w :
  Forall (fun h => headerConnects (chain w) h = false) hs ->
  exists w' evs,
    requestConnectHeaders_each hs from false w = (Returned tt, w', evs) /\
    chain w' = chain w /\
    unconnectingHeaders (nodeState w' from) = unconnectingHeaders (nodeState w from) /\
    List.filter is_misbehaving evs = [] /\
    getheaders_sent evs =
      map (fun _ => (from, LocatorFor (pindexBestHeader (chain w)))) hs.
Proof.
  revert w. induction hs as [|h hs IH]; intros w Hall.
  - exists w, []. repeat split; reflexivity.
  - inversion Hall as [|? ? Hh Hrest]; subst.
    destruct (requestConnectHeaders_run h from false w Hh)
      as (w1 & Hrun & Hchain & Hcount & _).
    destruct (IH w1) as (w' & evs & Heach & Hchain' & Hcount' & Hrep & Hsent).
    { rewrite Hchain. exact Hrest. }
    simpl. unfold mbind at 1, M_bind at 1. rewrite Hrun, Heach.
    eexists w', _. split; [reflexivity|].
    split; [congruence|]. split; [congruence|].
    simpl. split; [exact Hrep|].
    fold (getheaders_sent evs). rewrite Hsent, Hchain. reflexivity.
Qed.

End NoBump.

(** X13. Called without [bumpUnconnecting] on headers that do not connect,
    the handler asks for headers once per call, from [pindexBestHeader],
    leaves the unconnecting counter of the peer as it was, and never reports
    the peer, however many calls are made. *)
Theorem requestConnectHeaders_without_bump `{env : Collaborators}
    (hs : list CBlockHeader) (from : NodeId) (w : World) :
  Forall (fun h => headerConnects (chain w) h = false) hs ->
  exists w' evs,
    requestConnectHeaders_each hs from false w = (Returned tt, w', evs) /\
    unconnectingHeaders (nodeState w' from) = unconnectingHeaders (nodeState w from) /\
    List.filter is_misbehaving evs = [] /\
    getheaders_sent evs =
      map (fun _ => (from, LocatorFor (pindexBestHeader (chain w)))) hs.
Proof.
  intros Hall.
  destruct (requestConnectHeaders_each_no_bump hs from w Hall)
    as (w' & evs & Hrun & _ & Hcount & Hrep & Hsent).
  exists w', evs. auto.
Qed.

(** Twenty unconnecting headers that do not count. *)
Lemma requestConnectHeaders_without_bump_witness :
  exists w' evs,
    requestConnectHeaders_each (repeat (Ref_header 4242 9) 20) 7 false
      (Ref_world (Ref.line 3 3) 0) = (Returned tt, w', evs) /\
    unconnectingHeaders (nodeState w' 7) = 0 /\
    List.filter is_misbehaving evs = [] /\
    getheaders_sent evs = repeat (7, LocatorFor (Some 2%nat)) 20.
Proof.
  refine (requestConnectHeaders_without_bump (repeat (Ref_header 4242 9) 20) 7
            (Ref_world (Ref.line 3 3) 0) _).
  simpl. repeat constructor.
Defined.

(** X14. After an invocation of the entry point that returned, fewer than
    ten unconnecting headers from the same peer, each counted, make no
    report: the counter was reset and stands at their number. *)
Theorem unconnecting_after_reset `{env : Collaborators}
    (pfrom : NodeId) (headers : list CBlockHeader)
    (peerSentMax maybeAnnouncement : bool) (w w' : World)
    (r : option BlockPtr) (evs : list Event) (hs : list CBlockHeader) :
  operator_call pfrom headers peerSentMax maybeAnnouncement w = (Returned r, w', evs) ->
  Forall (fun h => headerConnects (chain w') h = false) hs ->
  (length hs < 10)%nat ->
  exists w'' evs',
    requestConnectHeaders_each hs pfrom true w' = (Returned tt, w'', evs') /\
    unconnectingHeaders (nodeState w'' pfrom) = Z.of_nat (length hs) /\
    List.filter is_misbehaving evs' = [].
Proof.
  intros Hrun Hall Hlen.
  assert (Hzero : unconnectingHeaders (nodeState w' pfrom) = 0).
  { destruct (operator_call_returned pfrom headers _ _ w r w' evs Hrun)
      as (cs & pl & _ & Hrest).
    destruct pl as [p|].
    - destruct (after_accept_some pfrom peerSentMax maybeAnnouncement p
                  (with_chain cs w))
        as (r1 & w1 & fetch & Hrest' & _ & _ & _ & Hcount & _).
      rewrite Hrest in Hrest'. inversion Hrest'; subst. exact Hcount.
    - rewrite after_accept_none in Hrest. inversion Hrest; subst. simpl.
      rewrite fn_lookup_insert. reflexivity. }
  destruct (requestConnectHeaders_each_run hs pfrom w' Hall)
    as (w'' & evs' & Heach & _ & Hcount & Hrep).
  { rewrite Hzero. unfold INT_MIN. lia. }
  { rewrite Hzero. unfold INT_MAX. lia. }
  exists w'', evs'. split; [exact Heach|].
  rewrite Hzero in Hcount, Hrep. split; [rewrite Hcount; lia|].
  rewrite Hrep. simpl.
  rewrite Z.div_small by lia. reflexivity.
Qed.

(** A peer at a count of 9 gets a header accepted and then sends nine
    unconnecting headers. *)
Lemma unconnecting_after_reset_witness :
  let w := with_nodeState
             (fun _ => {| unconnectingHeaders := 9; bestKnownHeader := None |})
             (Ref_world (Ref.line 3 3) 10) in
  let run := operator_call 7 [Ref_header 1002 3] false false w in
  exists w'' evs',
    requestConnectHeaders_each (repeat (Ref_header 4242 9) 9) 7 true (snd (fst run))
      = (Returned tt, w'', evs') /\
    unconnectingHeaders (nodeState w'' 7) = 9 /\
    List.filter is_misbehaving evs' = [].
Proof.
  intros w run.
  refine (unconnecting_after_reset 7 [Ref_header 1002 3] false false w
            (snd (fst run)) (Some 3%nat) (snd run)
            (repeat (Ref_header 4242 9) 9) _ _ _).
  - reflexivity.
  - simpl. repeat constructor.
  - simpl. lia.
Defined.

(** ** More on the download suggestion *)

Lemma isInFlight_elem (idx : list (Z * Z)) id h :
  (id, h) ∈ idx -> isInFlight idx h = true.
Proof.
  intros Hin. unfold isInFlight. apply existsb_exists.
  exists (id, h). split; [apply list_elem_of_In, Hin|]. simpl. apply Z.eqb_refl.
Qed.

(** X15. When the admission decision declines the block of the window
    nearest the known chain (the last entry of the window), [suggestDownload]
    asks about no other block, marks nothing in flight and sends no
    message. *)
Theorem suggestDownload_first_declined `{env : Collaborators}
    (pfrom : NodeId) (toFetch : list BlockPtr) (b last : BlockPtr)
    (w : World) (t : ThinState) :
  decideAnnounced (GetBlockHash (blk (chain w) b)) pfrom (inFlight w) (thin w)
    = (false, t) ->
  suggestDownload pfrom (toFetch ++ [b]) last w =
  (Returned tt, with_thin t w,
   [EvSuggestDownload (toFetch ++ [b]) last;
    EvOnBlockAnnounced (GetBlockHash (blk (chain w) b)) pfrom]).
Proof.
  intros Hdecl.
  unfold suggestDownload, mbind, M_bind, emit. simpl.
  rewrite rev_app_distr. simpl rev. simpl app.
  rewrite suggestDownload_loop_cons, Hdecl. reflexivity.
Qed.

(** No capacity left: the oldest of three blocks is declined. *)
Lemma suggestDownload_first_declined_witness :
  suggestDownload 7 ([3; 2] ++ [1])%nat 3 (Ref_world (Ref.line 4 1) 0) =
  (Returned tt, with_thin 0%nat (Ref_world (Ref.line 4 1) 0),
   [EvSuggestDownload [3; 2; 1]%nat 3; EvOnBlockAnnounced 1001 7]).
Proof.
  refine (suggestDownload_first_declined 7 [3; 2]%nat 1%nat 3%nat
            (Ref_world (Ref.line 4 1) 0) 0%nat _).
  reflexivity.
Defined.

(** X16. A block that [suggestDownload] marked in flight is not scheduled
    again: in the world it leaves, no window of [findMissingBlocks], from
    whatever tip, contains a block with a hash it marked. *)
Theorem marked_blocks_not_scheduled_again `{env : Collaborators}
    (pfrom : NodeId) (toFetch : list BlockPtr) (last tip : BlockPtr) (w : World) :
  exists w' evs window,
    suggestDownload pfrom toFetch last w = (Returned tt, w', evs) /\
    findMissingBlocks (chain w') (inFlight w') tip = Some window /\
    forall x id h,
      x ∈ window -> (id, h) ∈ marked evs -> GetBlockHash (blk (chain w') x) <> h.
Proof.
  destruct (suggestDownload_run pfrom toFetch last w)
    as (k & w' & Hrun & _ & _ & _ & Hfl & _).
  destruct (findMissingBlocks_total (chain w') (inFlight w') tip) as [window Hwin].
  eexists w', _, window. split; [exact Hrun|]. split; [exact Hwin|].
  intros x id h Hx Hmarked Hhash.
  assert (Hentry : window_entry (chain w') (inFlight w') tip x).
  { eapply loop_entries; [| |exact Hwin|exact Hx].
    - exists 0%nat. reflexivity.
    - intros y Hy. apply elem_of_nil in Hy. destruct Hy. }
  destruct Hentry as (Hw & _).
  unfold wanted in Hw. apply andb_true_iff in Hw as [_ Hnot].
  apply negb_true_iff in Hnot.
  assert (Hin : (id, h) ∈ inFlight w').
  { rewrite Hfl. apply elem_of_app. right.
    unfold marked in Hmarked. simpl in Hmarked. rewrite omap_app in Hmarked.
    fold (marked (suggest_events pfrom k
            (map (fun b => GetBlockHash (blk (chain w) b)) (rev toFetch))))
      in Hmarked.
    rewrite marked_suggest_events in Hmarked.
    apply elem_of_app in Hmarked as [Hm|Hm]; [exact Hm|].
    destruct k; simpl in Hm; apply elem_of_nil in Hm; destruct Hm. }
  rewrite Hhash in Hnot. rewrite (isInFlight_elem _ id h Hin) in Hnot.
  discriminate.
Qed.

(** ** The order of the stages *)

Section AbortedPrefix.
Context `{env : Collaborators}.
Variable pfrom : NodeId.

Lemma acceptHeaders_loop_thrown_app pre rest p w e w1 evs :
  acceptHeaders_loop pfrom pre p w = (Thrown e, w1, evs) ->
  acceptHeaders_loop pfrom (pre ++ rest) p w = (Thrown e, w1, evs).
Proof.
  revert p w. induction pre as [|h pre IH]; intros p w Hrun; [discriminate|].
  simpl in Hrun. simpl.
  destruct (match p with
            | Some p0 => negb (hashPrevBlock h =? GetBlockHash (blk (chain w) p0))
            | None => false
            end); [exact Hrun|].
  destruct (AcceptBlockHeader h p (chain w)) as [[[ok st] p'] cs].
  destruct ok; simpl in *; [apply IH, Hrun|].
  destruct (IsInvalid st) as [n|]; [exact Hrun|apply IH, Hrun].
Qed.

End AbortedPrefix.

(** X17. Once a batch makes [acceptHeaders] throw, the headers after the
    offending one play no part: with any headers appended the same error is
    thrown, in the same state, after the same calls. *)
Theorem acceptHeaders_abort_ignores_rest `{env : Collaborators}
    (pfrom : NodeId) (pre rest : list CBlockHeader) (w w1 : World)
    (e : BlockHeaderError) (evs : list Event) :
  acceptHeaders pfrom pre w = (Thrown e, w1, evs) ->
  acceptHeaders pfrom (pre ++ rest) w = (Thrown e, w1, evs).
Proof. apply acceptHeaders_loop_thrown_app. Qed.

(** A batch broken at its second header, with two more headers behind. *)
Lemma acceptHeaders_abort_ignores_rest_witness :
  acceptHeaders 7
    ([Ref_header 1000 1; Ref_header 4242 2] ++ [Ref_header 1002 3; Ref_header 1003 4])
    (Ref_world (Ref.line 1 1) 0) =
  (Thrown (BlockHeaderError_what "non-continuous headers sequence"),
   with_chain (snd (Ref.AcceptBlockHeader (Ref_header 1000 1) None (Ref.line 1 1)))
     (Ref_world (Ref.line 1 1) 0),
   [EvMisbehaving 7 20 "non-continuous header sequence"]).
Proof.
  refine (acceptHeaders_abort_ignores_rest 7 [Ref_header 1000 1; Ref_header 4242 2]
            [Ref_header 1002 3; Ref_header 1003 4] (Ref_world (Ref.line 1 1) 0)
            _ _ _ _).
  reflexivity.
Defined.

(** X18. An invocation that returns a node makes its calls in this order:
    the availability update of the peer with the hash of that node, then the
    continuation request if the batch was full, then the calls of the fetch
    stage (none but walk, suggestion, admission decisions, in-flight marks
    and the [getdata]), then [checkBlockIndex]. *)
Theorem operator_call_stage_order `{env : Collaborators}
    (pfrom : NodeId) (headers : list CBlockHeader)
    (peerSentMax maybeAnnouncement : bool) (w w' : World)
    (p : BlockPtr) (evs : list Event) :
  operator_call pfrom headers peerSentMax maybeAnnouncement w
    = (Returned (Some p), w', evs) ->
  exists fetch,
    evs =
      [EvUpdateBlockAvailability pfrom (GetBlockHash (blk (chain w') p))]
      ++ (if peerSentMax
          then [EvPushMessage pfrom (GETHEADERS (LocatorFor (Some p)) 0)]
          else [])
      ++ fetch ++ [EvCheckBlockIndex] /\
    List.filter (fun e => negb (is_fetch_stage e)) fetch = [].
Proof.
  intros Hrun.
  destruct (operator_call_returned pfrom headers _ _ w (Some p) w' evs Hrun)
    as (cs & pl & _ & Hrest).
  destruct pl as [q|].
  - destruct (after_accept_some pfrom peerSentMax maybeAnnouncement q (with_chain cs w))
      as (r1 & w1 & fetch & Hrest' & Hr & Hfetch & Hchain & _).
    rewrite Hrest in Hrest'.
    destruct Hr as [Hr|Hr]; subst r1; [|discriminate].
    injection Hrest' as Hq Hw Hevs. subst q w1.
    exists fetch. split; [rewrite Hchain; exact Hevs|].
    apply (fetch_calls_only_fetch pfrom _ _ _ _ Hfetch).
  - rewrite after_accept_none in Hrest. discriminate.
Qed.

(** Two new headers in a full batch that may be an announcement. *)
Lemma operator_call_stage_order_witness :
  let run := operator_call 7 [Ref_header 1002 3; Ref_header 1003 4] true true
               (Ref_world (Ref.line 3 3) 10) in
  exists fetch,
    snd run =
      [EvUpdateBlockAvailability 7 1004]
      ++ [EvPushMessage 7 (GETHEADERS (LocatorFor (Some 4%nat)) 0)]
      ++ fetch ++ [EvCheckBlockIndex] /\
    List.filter (fun e => negb (is_fetch_stage e)) fetch = [].
Proof.
  intros run.
  refine (operator_call_stage_order 7 [Ref_header 1002 3; Ref_header 1003 4] true true
            (Ref_world (Ref.line 3 3) 10) (snd (fst run)) 4%nat (snd run) _).
  reflexivity.
Defined.
